(** * Verification of the Virtual Cloud Assistant voice client

    Shallow embedding of
    - [public/audio-processor.js]: the [AudioProcessor] worklet (playback
      buffer, data requests, starvation recovery, hard reset);
    - [src/Content.js]: the PCM16 codec ([floatToPcm16], [pcm16ToFloat]) and
      the WebSocket session logic of [setupWebSocketConnection], the
      routing of server messages to the worklet in its [onmessage], and
      the module loading of [initAudioWorklet].

    Samples are rationals [Q].  The samples the worklet receives are
    produced by [pcm16ToFloat] ([int16 / 32768.0]), all exactly
    representable; the worklet only copies them, so no rounding happens
    in the buffer.  Times ([Date.now()]) are integers of milliseconds. *)

From Stdlib Require Import ZArith QArith Qround Qabs Lia Lqa List Bool.
From Stdlib Require String.
Import ListNotations.

Open Scope Z_scope.

(* ------------------------------------------------------------------ *)
(** * The audio worklet ([AudioProcessor]) *)

Module AudioProcessor.

(** Messages the worklet posts to the main thread ([this.port.postMessage]). *)
Inductive PortMsg := NeedData | Stopped | BufferReset.

Definition PortMsg_eqb (a b : PortMsg) : bool :=
  match a, b with
  | NeedData, NeedData | Stopped, Stopped | BufferReset, BufferReset => true
  | _, _ => false
  end.

(** Messages the main thread posts to the worklet ([event.data.type]). *)
Inductive InMsg :=
  | MsgData (audio : list Q) (now : Z)  (* type 'data'; [now] = Date.now() *)
  | MsgClear
  | MsgStop
  | MsgKbModeOn
  | MsgKbModeOff.

(** The fields of the processor object.  [outbox] is the sequence of
    messages posted on the port so far. *)
Record AP := mkAP {
  buffer : list Q;
  position : nat;
  isPlaying : bool;
  lastDataTime : Z;
  bufferThreshold : Z;
  starvationTimeout : Z;
  normalStarvationTimeout : Z;
  kbStarvationTimeout : Z;
  needDataRequested : bool;
  recoveryAttempts : Z;
  maxRecoveryAttempts : Z;
  isKnowledgeBaseQuery : bool;
  silenceFillCount : Z;
  maxSilenceFills : Z;
  adaptiveBufferMode : bool;
  outbox : list PortMsg
}.

(** [constructor()], with [t0] the value of [Date.now()] at construction. *)
Definition init (t0 : Z) : AP := {|
  buffer := [];
  position := 0;
  isPlaying := true;
  lastDataTime := t0;
  bufferThreshold := 8192;
  starvationTimeout := 30000;
  normalStarvationTimeout := 20000;
  kbStarvationTimeout := 30000;
  needDataRequested := false;
  recoveryAttempts := 0;
  maxRecoveryAttempts := 10;
  isKnowledgeBaseQuery := false;
  silenceFillCount := 0;
  maxSilenceFills := 100;
  adaptiveBufferMode := false;
  outbox := []
|}.

(** Record update helpers, one per group of fields the code assigns. *)
Definition set_buf (s : AP) (b : list Q) (p : nat) : AP :=
  {| buffer := b; position := p; isPlaying := isPlaying s;
     lastDataTime := lastDataTime s; bufferThreshold := bufferThreshold s;
     starvationTimeout := starvationTimeout s;
     normalStarvationTimeout := normalStarvationTimeout s;
     kbStarvationTimeout := kbStarvationTimeout s;
     needDataRequested := needDataRequested s;
     recoveryAttempts := recoveryAttempts s;
     maxRecoveryAttempts := maxRecoveryAttempts s;
     isKnowledgeBaseQuery := isKnowledgeBaseQuery s;
     silenceFillCount := silenceFillCount s; maxSilenceFills := maxSilenceFills s;
     adaptiveBufferMode := adaptiveBufferMode s; outbox := outbox s |}.

Definition set_flags (s : AP) (playing : bool) (ldt : Z) (ndr : bool)
    (ra sfc : Z) : AP :=
  {| buffer := buffer s; position := position s; isPlaying := playing;
     lastDataTime := ldt; bufferThreshold := bufferThreshold s;
     starvationTimeout := starvationTimeout s;
     normalStarvationTimeout := normalStarvationTimeout s;
     kbStarvationTimeout := kbStarvationTimeout s;
     needDataRequested := ndr;
     recoveryAttempts := ra;
     maxRecoveryAttempts := maxRecoveryAttempts s;
     isKnowledgeBaseQuery := isKnowledgeBaseQuery s;
     silenceFillCount := sfc; maxSilenceFills := maxSilenceFills s;
     adaptiveBufferMode := adaptiveBufferMode s; outbox := outbox s |}.

Definition set_mode (s : AP) (kb : bool) (timeout : Z) (adaptive : bool) : AP :=
  {| buffer := buffer s; position := position s; isPlaying := isPlaying s;
     lastDataTime := lastDataTime s; bufferThreshold := bufferThreshold s;
     starvationTimeout := timeout;
     normalStarvationTimeout := normalStarvationTimeout s;
     kbStarvationTimeout := kbStarvationTimeout s;
     needDataRequested := needDataRequested s;
     recoveryAttempts := recoveryAttempts s;
     maxRecoveryAttempts := maxRecoveryAttempts s;
     isKnowledgeBaseQuery := kb;
     silenceFillCount := silenceFillCount s; maxSilenceFills := maxSilenceFills s;
     adaptiveBufferMode := adaptive; outbox := outbox s |}.

(** [this.port.postMessage(m)] *)
Definition post (s : AP) (m : PortMsg) : AP :=
  {| buffer := buffer s; position := position s; isPlaying := isPlaying s;
     lastDataTime := lastDataTime s; bufferThreshold := bufferThreshold s;
     starvationTimeout := starvationTimeout s;
     normalStarvationTimeout := normalStarvationTimeout s;
     kbStarvationTimeout := kbStarvationTimeout s;
     needDataRequested := needDataRequested s;
     recoveryAttempts := recoveryAttempts s;
     maxRecoveryAttempts := maxRecoveryAttempts s;
     isKnowledgeBaseQuery := isKnowledgeBaseQuery s;
     silenceFillCount := silenceFillCount s; maxSilenceFills := maxSilenceFills s;
     adaptiveBufferMode := adaptiveBufferMode s; outbox := outbox s ++ [m] |}.

(** [this.buffer.length - this.position], as a JS number. *)
Definition remaining (s : AP) : Z :=
  Z.of_nat (length (buffer s)) - Z.of_nat (position s).

(** [this.port.onmessage] *)
Definition onmessage (s : AP) (m : InMsg) : AP :=
  match m with
  | MsgData audio now =>
      let s1 := set_buf s (buffer s ++ audio) (position s) in
      set_flags s1 true now false 0 0
  | MsgClear =>
      let s1 := set_buf s [] 0 in
      set_flags s1 (isPlaying s1) (lastDataTime s1) false
        (recoveryAttempts s1) 0
  | MsgStop =>
      let s1 := set_buf s [] 0 in
      let s2 := set_flags s1 false (lastDataTime s1) false
                  (recoveryAttempts s1) 0 in
      post s2 Stopped
  | MsgKbModeOn => set_mode s true (kbStarvationTimeout s) true
  | MsgKbModeOff => set_mode s false (normalStarvationTimeout s) false
  end.

(** [requestMoreDataIfNeeded()] *)
Definition requestMoreDataIfNeeded (s : AP) : AP :=
  let threshold := if adaptiveBufferMode s then bufferThreshold s * 2
                   else bufferThreshold s in
  if (remaining s <? threshold) && negb (needDataRequested s) then
    let s1 := post s NeedData in
    set_flags s1 (isPlaying s1) (lastDataTime s1) true
      (recoveryAttempts s1) (silenceFillCount s1)
  else s.

(** [handleStarvation(output)] at time [now]; the boolean is its result.
    Its [output.fill(0)] is subsumed by the fill done by [process]. *)
Definition handleStarvation (s : AP) (now : Z) : AP * bool :=
  let timeSinceLastData := now - lastDataTime s in
  if starvationTimeout s <? timeSinceLastData then
    if recoveryAttempts s <? maxRecoveryAttempts s then
      let s1 := set_flags s (isPlaying s) (lastDataTime s) false
                  (recoveryAttempts s + 1) (silenceFillCount s + 1) in
      let s2 := requestMoreDataIfNeeded s1 in
      if maxSilenceFills s2 <? silenceFillCount s2 then
        let s3 := set_buf s2 [] 0 in
        let s4 := set_flags s3 (isPlaying s3) (lastDataTime s3)
                    (needDataRequested s3) (recoveryAttempts s3) 0 in
        (post s4 BufferReset, true)
      else (s2, true)
    else
      let s1 := set_buf s [] 0 in
      let s2 := set_flags s1 (isPlaying s1) (lastDataTime s1) false 0 0 in
      (post s2 BufferReset, false)
  else (s, true).

(** [new Float32Array(n).fill(0)] *)
Definition silence (n : nat) : list Q := repeat 0%Q n.

(** [process(inputs, outputs)] for an output block of [n] samples at time
    [now]; [sampleRate] is the worklet global.  Returns the new state and
    the samples written to [outputs[0][0]]. *)
Definition process (sampleRate : Z) (s : AP) (n : nat) (now : Z)
    : AP * list Q :=
  if negb (isPlaying s) then (s, silence n)
  else
    let s1 := requestMoreDataIfNeeded s in
    if remaining s1 <? Z.of_nat n then
      let (s2, ok) := handleStarvation s1 now in
      if negb ok then (s2, silence n)
      else
        (set_flags s2 (isPlaying s2) (lastDataTime s2) (needDataRequested s2)
           (recoveryAttempts s2) (silenceFillCount s2 + 1), silence n)
    else
      (* output[i] = this.buffer[this.position + i]; in range here *)
      let out := map (fun i => nth (position s1 + i) (buffer s1) 0%Q)
                     (seq 0 n) in
      let pos := (position s1 + n)%nat in
      let s2 := set_buf s1 (buffer s1) pos in
      let s3 := set_flags s2 (isPlaying s2) (lastDataTime s2)
                  (needDataRequested s2) (recoveryAttempts s2) 0 in
      if sampleRate * 5 <? Z.of_nat pos then
        (set_buf s3 (skipn pos (buffer s3)) 0, out)
      else (s3, out).

(** Operations of a client that only appends frames and pulls blocks. *)
Inductive Op :=
  | OpAppend (audio : list Q) (now : Z)
  | OpPull (n : nat) (now : Z).

(** Runs the operations; returns the final state and the blocks pulled. *)
Fixpoint run (sampleRate : Z) (s : AP) (ops : list Op) : AP * list (list Q) :=
  match ops with
  | [] => (s, [])
  | OpAppend a t :: rest => run sampleRate (onmessage s (MsgData a t)) rest
  | OpPull n t :: rest =>
      let (s1, out) := process sampleRate s n t in
      let (sf, outs) := run sampleRate s1 rest in
      (sf, out :: outs)
  end.

(** Every pull of the run finds at least [n] unconsumed samples. *)
Fixpoint fed (sampleRate : Z) (s : AP) (ops : list Op) : bool :=
  match ops with
  | [] => true
  | OpAppend a t :: rest => fed sampleRate (onmessage s (MsgData a t)) rest
  | OpPull n t :: rest =>
      (Z.of_nat n <=? remaining s) &&
      fed sampleRate (fst (process sampleRate s n t)) rest
  end.

(** The samples appended by the run, in arrival order. *)
Fixpoint appended (ops : list Op) : list Q :=
  match ops with
  | [] => []
  | OpAppend a _ :: rest => a ++ appended rest
  | OpPull _ _ :: rest => appended rest
  end.

(** Everything the worklet reacts to: a port message or an audio tick. *)
Inductive Event :=
  | EvMsg (m : InMsg)
  | EvTick (n : nat) (now : Z).

Definition step (sampleRate : Z) (s : AP) (e : Event) : AP :=
  match e with
  | EvMsg m => onmessage s m
  | EvTick n now => fst (process sampleRate s n now)
  end.

Definition run_events (sampleRate : Z) (s : AP) (evs : list Event) : AP :=
  fold_left (step sampleRate) evs s.

(** The cursor invariant [0 <= position <= buffer.length]; the lower bound
    is the type of [position]. *)
Definition cursor_ok (s : AP) : Prop := (position s <= length (buffer s))%nat.

(** Number of messages [m] posted. *)
Definition count_msg (m : PortMsg) (l : list PortMsg) : nat :=
  length (filter (PortMsg_eqb m) l).

End AudioProcessor.

(* ------------------------------------------------------------------ *)
(** * Proofs about the worklet *)

Module AudioProcessorFacts.
Import AudioProcessor.

(** The scenario of the spec: append 4096 zero samples, pull 2048. *)
Example append_then_pull :
  let s1 := onmessage (init 0) (MsgData (repeat 0%Q 4096) 0) in
  let (s2, out) := process 16000 s1 2048 0 in
  out = repeat 0%Q 2048 /\ remaining s2 = 2048.
Proof. vm_compute. split; reflexivity. Qed.

Lemma request_fields (s : AP) :
  buffer (requestMoreDataIfNeeded s) = buffer s /\
  position (requestMoreDataIfNeeded s) = position s /\
  isPlaying (requestMoreDataIfNeeded s) = isPlaying s /\
  lastDataTime (requestMoreDataIfNeeded s) = lastDataTime s /\
  starvationTimeout (requestMoreDataIfNeeded s) = starvationTimeout s /\
  recoveryAttempts (requestMoreDataIfNeeded s) = recoveryAttempts s /\
  maxRecoveryAttempts (requestMoreDataIfNeeded s) = maxRecoveryAttempts s /\
  silenceFillCount (requestMoreDataIfNeeded s) = silenceFillCount s /\
  maxSilenceFills (requestMoreDataIfNeeded s) = maxSilenceFills s.
Proof.
  unfold requestMoreDataIfNeeded; destruct (_ && _); repeat split.
Qed.

Lemma remaining_request (s : AP) :
  remaining (requestMoreDataIfNeeded s) = remaining s.
Proof.
  unfold remaining; destruct (request_fields s) as (-> & -> & _); reflexivity.
Qed.

Lemma starvation_buffer (s : AP) (now : Z) :
  let s' := fst (handleStarvation s now) in
  (buffer s' = buffer s /\ position s' = position s) \/
  (buffer s' = [] /\ position s' = 0%nat).
Proof.
  unfold handleStarvation.
  destruct (_ <? _); [|left; auto].
  destruct (_ <? _); [|right; auto].
  destruct (request_fields (set_flags s (isPlaying s) (lastDataTime s) false
             (recoveryAttempts s + 1) (silenceFillCount s + 1)))
    as (Hb & Hp & _).
  destruct (_ <? _); simpl; [right; auto | left; rewrite Hb, Hp; auto].
Qed.

Lemma skipn_nth_cons (m : nat) (b : list Q) (d : Q) :
  (m < length b)%nat -> skipn m b = nth m b d :: skipn (S m) b.
Proof.
  revert b; induction m as [|m IH]; intros [|x b] H; simpl in *; try lia.
  - reflexivity.
  - apply IH; lia.
Qed.

(** The copy loop [output[i] = this.buffer[this.position + i]]. *)
Lemma copy_loop (p k n : nat) (b : list Q) :
  (p + k + n <= length b)%nat ->
  map (fun i => nth (p + i) b 0%Q) (seq k n) = firstn n (skipn (p + k) b).
Proof.
  revert k; induction n as [|n IH]; intros k H; [reflexivity|].
  cbn [seq map]. rewrite (skipn_nth_cons (p + k) b 0%Q) by lia.
  cbn [firstn]. f_equal. rewrite IH by lia.
  replace (p + S k)%nat with (S (p + k)) by lia. reflexivity.
Qed.

(** A pull that finds enough data copies the next [n] samples and
    advances over them, whether or not it compacts. *)
Lemma process_copy (sr : Z) (s : AP) (n : nat) (now : Z) :
  isPlaying s = true -> Z.of_nat n <= remaining s ->
  let (s', out) := process sr s n now in
  out = firstn n (skipn (position s) (buffer s)) /\
  skipn (position s') (buffer s') = skipn (position s + n) (buffer s) /\
  (position s' <= length (buffer s'))%nat /\
  isPlaying s' = true.
Proof.
  intros Hp Hn. unfold process. rewrite Hp; simpl.
  destruct (request_fields s) as (Hb & Hpos & Hpl & _).
  rewrite remaining_request.
  destruct (Z.ltb_spec (remaining s) (Z.of_nat n)); [lia|].
  unfold remaining in Hn.
  rewrite Hb, Hpos.
  rewrite (copy_loop (position s) 0 n (buffer s)) by lia.
  rewrite Nat.add_0_r.
  destruct (_ <? _); simpl; repeat split.
  all: try (rewrite Hpl; exact Hp); lia.
Qed.

Lemma append_skipn (s : AP) (a : list Q) (t : Z) :
  cursor_ok s ->
  skipn (position (onmessage s (MsgData a t))) (buffer (onmessage s (MsgData a t)))
  = skipn (position s) (buffer s) ++ a.
Proof.
  unfold cursor_ok; intros H; simpl.
  rewrite skipn_app. replace (position s - length (buffer s))%nat with 0%nat
    by lia. reflexivity.
Qed.

(** Generalisation of C1 to any playing state whose cursor is in range. *)
Lemma run_fed_samples (sr : Z) (ops : list Op) : forall s,
  isPlaying s = true -> cursor_ok s -> fed sr s ops = true ->
  concat (snd (run sr s ops))
    ++ skipn (position (fst (run sr s ops))) (buffer (fst (run sr s ops)))
  = skipn (position s) (buffer s) ++ appended ops.
Proof.
  induction ops as [|[a t|n t] rest IH]; intros s Hp Hc Hf;
    cbn [run fed appended] in *.
  - simpl. rewrite app_nil_r. reflexivity.
  - rewrite IH by (try reflexivity; auto; unfold cursor_ok in *; simpl;
                   rewrite length_app; lia).
    rewrite append_skipn by exact Hc. rewrite app_assoc. reflexivity.
  - apply andb_prop in Hf as [Hn Hf]. apply Z.leb_le in Hn.
    pose proof (process_copy sr s n t Hp Hn) as Hcopy.
    destruct (process sr s n t) as [s1 out] eqn:E. simpl in Hf.
    destruct Hcopy as (Hout & Hskip & Hc1 & Hp1).
    specialize (IH s1 Hp1 Hc1 Hf).
    destruct (run sr s1 rest) as [sf outs] eqn:E2. simpl in *.
    rewrite <- app_assoc, IH, Hskip, Hout, app_assoc.
    replace (skipn (position s + n) (buffer s))
      with (skipn n (skipn (position s) (buffer s)))
      by (rewrite skipn_skipn; f_equal; lia).
    rewrite firstn_skipn. reflexivity.
Qed.

(** ** C1 *)
(** C1: for every sequence of appends and pulls on the freshly constructed
    worklet in which every [pull(n)] finds at least [n] unconsumed samples,
    the concatenation of the pulled blocks is a prefix of the concatenation
    of the appended frames, in arrival order. *)
Theorem pulled_prefix_of_appended (sr t0 : Z) (ops : list Op) :
  fed sr (init t0) ops = true ->
  exists rest, concat (snd (run sr (init t0) ops)) ++ rest = appended ops.
Proof.
  intros Hf.
  exists (skipn (position (fst (run sr (init t0) ops)))
            (buffer (fst (run sr (init t0) ops)))).
  rewrite run_fed_samples; try reflexivity; auto.
  unfold cursor_ok; simpl; lia.
Qed.

Lemma pulled_prefix_of_appended_witness :
  let ops := [OpAppend [1; 2; 3]%Q 0; OpPull 2 0; OpAppend [4]%Q 5;
              OpPull 2 6] in
  fed 16000 (init 0) ops = true /\
  exists rest, concat (snd (run 16000 (init 0) ops)) ++ rest = appended ops.
Proof.
  intros ops. split.
  - vm_compute. reflexivity.
  - apply (pulled_prefix_of_appended 16000 0 ops). vm_compute. reflexivity.
Defined.

(** ** C8 *)
(** C8: the 'clear' message is idempotent: clearing twice gives the state
    obtained by clearing once, and after each clear the buffer is empty and
    the cursor is zero. *)
Theorem clear_idempotent (s : AP) :
  let s1 := onmessage s MsgClear in
  let s2 := onmessage s1 MsgClear in
  s2 = s1 /\ buffer s1 = [] /\ position s1 = 0%nat /\
  buffer s2 = [] /\ position s2 = 0%nat.
Proof. repeat split. Qed.

(** ** C9 *)
Lemma onmessage_cursor (s : AP) (m : InMsg) :
  cursor_ok s -> cursor_ok (onmessage s m).
Proof.
  unfold cursor_ok; destruct m; simpl; intros H; try lia.
  rewrite length_app. lia.
Qed.

Lemma process_cursor (sr : Z) (s : AP) (n : nat) (now : Z) :
  cursor_ok s -> cursor_ok (fst (process sr s n now)).
Proof.
  unfold cursor_ok, process; intros H.
  destruct (isPlaying s); simpl; [|exact H].
  destruct (request_fields s) as (Hb & Hpos & _).
  destruct (Z.ltb_spec (remaining (requestMoreDataIfNeeded s)) (Z.of_nat n))
    as [Hlt|Hge].
  - pose proof (starvation_buffer (requestMoreDataIfNeeded s) now) as Hs.
    destruct (handleStarvation (requestMoreDataIfNeeded s) now) as [s2 ok].
    simpl in Hs.
    destruct ok; simpl;
      destruct Hs as [[-> ->] | [-> ->]]; rewrite ?Hb, ?Hpos; simpl; lia.
  - rewrite remaining_request in Hge. unfold remaining in Hge.
    destruct (_ <? _); simpl; rewrite ?length_skipn, Hb, Hpos; lia.
Qed.

Lemma step_cursor (sr : Z) (s : AP) (e : Event) :
  cursor_ok s -> cursor_ok (step sr s e).
Proof.
  destruct e; simpl; [apply onmessage_cursor | apply process_cursor].
Qed.

(** C9: the invariant [0 <= position <= buffer.length] holds for the
    freshly constructed worklet and after every sequence of messages
    (data, clear, stop, knowledge-base mode on/off) and audio ticks. *)
Theorem cursor_invariant (sr t0 : Z) (evs : list Event) :
  cursor_ok (run_events sr (init t0) evs).
Proof.
  unfold run_events.
  assert (Hgen : forall s, cursor_ok s -> cursor_ok (fold_left (step sr) evs s)).
  { induction evs as [|e evs IH]; intros s Hs; simpl; auto.
    apply IH, step_cursor, Hs. }
  apply Hgen. unfold cursor_ok; simpl; lia.
Qed.

(** ** C10 *)
(** C10: a pull of [n] samples that finds fewer than [n] unconsumed
    samples while the starvation timeout has not elapsed since the last
    append outputs silence and leaves the buffer and the cursor as they
    were. *)
Theorem short_pull_keeps_buffer (sr : Z) (s : AP) (n : nat) (now : Z) :
  remaining s < Z.of_nat n ->
  now - lastDataTime s <= starvationTimeout s ->
  let (s', out) := process sr s n now in
  out = silence n /\ buffer s' = buffer s /\ position s' = position s.
Proof.
  intros Hlt Hto. unfold process.
  destruct (isPlaying s); simpl; [|auto].
  destruct (request_fields s) as (Hb & Hpos & _ & Hldt & Hst & _).
  rewrite remaining_request.
  destruct (Z.ltb_spec (remaining s) (Z.of_nat n)); [|lia].
  unfold handleStarvation. rewrite Hldt, Hst.
  destruct (Z.ltb_spec (starvationTimeout s) (now - lastDataTime s)); [lia|].
  simpl. auto.
Qed.

Lemma short_pull_keeps_buffer_witness :
  let s := onmessage (init 0) (MsgData [1; 2]%Q 10) in
  remaining s < Z.of_nat 128 /\ 50 - lastDataTime s <= starvationTimeout s /\
  (let (s', out) := process 16000 s 128 50 in
   out = silence 128 /\ buffer s' = buffer s /\ position s' = position s).
Proof.
  intros s. split; [vm_compute; reflexivity|]. split; [vm_compute; discriminate|].
  apply (short_pull_keeps_buffer 16000 s 128 50);
    [vm_compute; reflexivity | vm_compute; discriminate].
Defined.

(** ** C2 *)

(** Pull ticks only, no message in between. *)
Definition pulls (sr : Z) (s : AP) (ticks : list (nat * Z)) : AP :=
  run_events sr s (map (fun '(n, t) => EvTick n t) ticks).

(** Requests that may still be emitted before the flag is set. *)
Definition budget (s : AP) : nat := if needDataRequested s then 0 else 1.

Lemma request_budget (s : AP) :
  exists fresh, outbox (requestMoreDataIfNeeded s) = outbox s ++ fresh /\
  (count_msg NeedData fresh + budget (requestMoreDataIfNeeded s) <= budget s)%nat.
Proof.
  unfold requestMoreDataIfNeeded, budget.
  destruct (_ && _) eqn:E.
  - apply andb_prop in E as [_ E]. apply negb_true_iff in E.
    exists [NeedData]. simpl. rewrite E. split; reflexivity.
  - exists []. rewrite app_nil_r. split; [reflexivity|]. simpl; lia.
Qed.

(** One pull tick before the timeout emits at most the remaining budget and
    keeps the time of the last append and the timeout. *)
Lemma tick_budget (sr : Z) (s : AP) (n : nat) (now : Z) :
  now - lastDataTime s <= starvationTimeout s ->
  let s' := fst (process sr s n now) in
  (exists fresh, outbox s' = outbox s ++ fresh /\
     (count_msg NeedData fresh + budget s' <= budget s)%nat) /\
  lastDataTime s' = lastDataTime s /\ starvationTimeout s' = starvationTimeout s.
Proof.
  intros Hto. unfold process.
  destruct (isPlaying s); simpl.
  2:{ split; auto. exists []. rewrite app_nil_r. split; auto. }
  destruct (request_fields s) as (_ & _ & _ & Hldt & Hst & _).
  destruct (request_budget s) as (fresh & Hout & Hcnt).
  destruct (_ <? _).
  - unfold handleStarvation. rewrite Hldt, Hst.
    destruct (Z.ltb_spec (starvationTimeout s) (now - lastDataTime s)); [lia|].
    simpl. unfold budget in *. simpl. eauto.
  - destruct (_ <? _); simpl; unfold budget in *; simpl; eauto.
Qed.

(** The flag is cleared by a pull only when the timeout has elapsed. *)
Lemma tick_flag (sr : Z) (s : AP) (n : nat) (now : Z) :
  needDataRequested s = true ->
  needDataRequested (fst (process sr s n now)) = false ->
  starvationTimeout s < now - lastDataTime s.
Proof.
  intros Hf. unfold process.
  destruct (isPlaying s); simpl; [|congruence].
  assert (Hr : requestMoreDataIfNeeded s = s).
  { unfold requestMoreDataIfNeeded. rewrite Hf, andb_false_r. reflexivity. }
  rewrite Hr.
  destruct (_ <? _).
  - unfold handleStarvation.
    destruct (Z.ltb_spec (starvationTimeout s) (now - lastDataTime s)); auto.
    simpl. congruence.
  - destruct (_ <? _); simpl; congruence.
Qed.

(** C2 (amended): in a run of consecutive pull ticks with no message to the
    worklet in between, during which the starvation timeout has not
    elapsed since the last append, at most one 'needData' is posted, and
    none when a request is already outstanding at the start; and a pull
    clears the outstanding flag only on a tick where the timeout has
    elapsed. *)
Theorem need_data_once_before_timeout (sr : Z) (s : AP)
    (ticks : list (nat * Z)) :
  (Forall (fun '(n, t) => t - lastDataTime s <= starvationTimeout s) ticks ->
   exists fresh, outbox (pulls sr s ticks) = outbox s ++ fresh /\
     (count_msg NeedData fresh <= budget s)%nat) /\
  (forall n now, needDataRequested s = true ->
     needDataRequested (fst (process sr s n now)) = false ->
     starvationTimeout s < now - lastDataTime s).
Proof.
  split; [|intros; eapply tick_flag; eauto].
  unfold pulls, run_events.
  revert s; induction ticks as [|[n t] ticks IH]; intros s Hall; simpl.
  - exists []. rewrite app_nil_r. split; [reflexivity|]. apply Nat.le_0_l.
  - inversion Hall as [|x l Ht Hrest]; subst.
    destruct (tick_budget sr s n t Ht) as ((f1 & Ho1 & Hc1) & Hl & Hs).
    set (s1 := fst (process sr s n t)) in *.
    assert (Hrest' : Forall (fun '(n, t) => t - lastDataTime s1 <=
                                           starvationTimeout s1) ticks).
    { rewrite Hl, Hs. exact Hrest. }
    destruct (IH s1 Hrest') as (f2 & Ho2 & Hc2).
    exists (f1 ++ f2). split.
    + rewrite Ho2, Ho1, app_assoc. reflexivity.
    + unfold count_msg in *. rewrite filter_app, length_app. lia.
Qed.

Lemma need_data_once_before_timeout_witness :
  let s := init 0 in
  let ticks := [(128%nat, 0); (128%nat, 8); (128%nat, 16)] in
  Forall (fun '(n, t) => t - lastDataTime s <= starvationTimeout s) ticks /\
  ((Forall (fun '(n, t) => t - lastDataTime s <= starvationTimeout s) ticks ->
    exists fresh, outbox (pulls 16000 s ticks) = outbox s ++ fresh /\
      (count_msg NeedData fresh <= budget s)%nat) /\
   (forall n now, needDataRequested s = true ->
      needDataRequested (fst (process 16000 s n now)) = false ->
      starvationTimeout s < now - lastDataTime s)).
Proof.
  intros s ticks. split.
  - repeat constructor; vm_compute; discriminate.
  - apply (need_data_once_before_timeout 16000 s ticks).
Defined.

(** C2 as stated fails: two consecutive pulls with no append, the second
    one after the 30 s timeout, post 'needData' twice; the outstanding
    flag, set by the first pull, is cleared by the second. *)
Lemma need_data_twice_without_append :
  let s1 := pulls 16000 (init 0) [(128%nat, 0)] in
  let s2 := pulls 16000 (init 0) [(128%nat, 0); (128%nat, 30001)] in
  needDataRequested s1 = true /\
  count_msg NeedData (outbox s2) = 2%nat.
Proof. vm_compute. split; reflexivity. Qed.

(** ** C3 *)

(** No data ever arrives; the host calls [process] every 8 ms
    (128 samples at 16 kHz) for 30 s, then once more at 30008 ms. *)
Definition starved_ticks : list Event :=
  map (fun k => EvTick 128 (8 * Z.of_nat k)) (seq 0 3751)
  ++ [EvTick 128 30008].

(** C3: at the tick at 30008 ms the silence-fill count exceeds its maximum
    and the worklet resets the buffer and posts 'bufferReset' once, but the
    recovery-attempt counter stays at 1, the silence-fill count is 1 and
    the outstanding data-request flag is set. *)
Theorem silence_reset_keeps_counters :
  let s := run_events 16000 (init 0) starved_ticks in
  buffer s = [] /\ position s = 0%nat /\
  count_msg BufferReset (outbox s) = 1%nat /\
  recoveryAttempts s = 1 /\ silenceFillCount s = 1 /\
  needDataRequested s = true.
Proof. vm_compute. repeat split. Qed.

(** The tick just before: no reset yet. *)
Example no_reset_before_timeout :
  let s := run_events 16000 (init 0)
             (map (fun k => EvTick 128 (8 * Z.of_nat k)) (seq 0 3751)) in
  count_msg BufferReset (outbox s) = 0%nat /\ silenceFillCount s = 3751.
Proof. vm_compute. split; reflexivity. Qed.

End AudioProcessorFacts.

(* ------------------------------------------------------------------ *)
(** * The PCM16 codec of [Content.js] *)

(** Inputs come from [getChannelData] (float32, at most 24 significant
    bits), so [s * 0x8000] and [s * 0x7FFF] are exact in double precision,
    and [int16 / 32768.0] is exact in float32: rational arithmetic computes
    what the code computes. *)
Module Codec.

Open Scope Q_scope.

(** [Math.min(a, b)] and [Math.max(a, b)] *)
Definition js_min (a b : Q) : Q := if Qle_bool a b then a else b.
Definition js_max (a b : Q) : Q := if Qle_bool a b then b else a.

(** [Math.trunc], as done by the integer conversions of typed arrays. *)
Definition trunc (x : Q) : Z := if Qle_bool 0 x then Qfloor x else Qceiling x.

(** ToInt16: truncate, then wrap modulo 2^16 into [-32768, 32767]. *)
Definition toInt16 (x : Q) : Z :=
  let m := (trunc x mod 65536)%Z in
  if (32768 <=? m)%Z then (m - 65536)%Z else m.

(** One iteration of [floatToPcm16]:
    [s = Math.max(-1, Math.min(1, input[i]));
     output[i] = s < 0 ? s * 0x8000 : s * 0x7FFF] (stored in an Int16Array). *)
Definition floatToPcm16_sample (x : Q) : Z :=
  let s := js_max (-1) (js_min 1 x) in
  toInt16 (if negb (Qle_bool 0 s) then s * 32768 else s * 32767).

Definition floatToPcm16 (input : list Q) : list Z :=
  map floatToPcm16_sample input.

(** [view.setInt16(2 * i, value, true)]: two bytes, little-endian. *)
Definition setInt16_le (v : Z) : list Z :=
  [Z.land v 255; Z.land (Z.shiftr v 8) 255].

(** [dataView.getInt16(2 * i, true)] on bytes [b0] (low) and [b1] (high). *)
Definition getInt16_le (b0 b1 : Z) : Z :=
  let u := (b0 + 256 * b1)%Z in
  if (32768 <=? u)%Z then (u - 65536)%Z else u.

Fixpoint pcm16_bytes (samples : list Z) : list Z :=
  match samples with
  | [] => []
  | v :: rest => setInt16_le v ++ pcm16_bytes rest
  end.

(** [pcm16ToFloat]: [int16 / 32768.0] for each pair of bytes. *)
Fixpoint pcm16ToFloat (bytes : list Z) : list Q :=
  match bytes with
  | b0 :: b1 :: rest => inject_Z (getInt16_le b0 b1) / 32768 :: pcm16ToFloat rest
  | _ => []
  end.

(** Encoding, serialising and decoding a block. *)
Definition roundtrip (input : list Q) : list Q :=
  pcm16ToFloat (pcm16_bytes (floatToPcm16 input)).

End Codec.

Module CodecFacts.
Import Codec.
Open Scope Q_scope.

Lemma toInt16_small (x : Q) :
  (-32768 <= trunc x <= 32767)%Z -> toInt16 x = trunc x.
Proof.
  unfold toInt16. intros H.
  destruct (Z.leb_spec 0 (trunc x)).
  - rewrite Z.mod_small by lia.
    destruct (Z.leb_spec 32768 (trunc x)); lia.
  - rewrite <- (Z.mod_add (trunc x) 1 65536) by lia.
    rewrite Z.mod_small by lia.
    destruct (Z.leb_spec 32768 (trunc x + 1 * 65536)); lia.
Qed.

Lemma int16_le_roundtrip (v : Z) :
  (-32768 <= v <= 32767)%Z ->
  getInt16_le (Z.land v 255) (Z.land (Z.shiftr v 8) 255) = v.
Proof.
  intros H. unfold getInt16_le.
  change 255%Z with (Z.ones 8).
  rewrite !Z.land_ones, Z.shiftr_div_pow2 by lia.
  change (2 ^ 8)%Z with 256%Z.
  rewrite <- Z.rem_mul_r by lia. change (256 * 256)%Z with 65536%Z.
  destruct (Z.leb_spec 0 v).
  - rewrite Z.mod_small by lia.
    destruct (Z.leb_spec 32768 v); lia.
  - rewrite <- (Z.mod_add v 1 65536) by lia.
    rewrite Z.mod_small by lia.
    destruct (Z.leb_spec 32768 (v + 1 * 65536)); lia.
Qed.

Lemma clamp_in_range (x : Q) :
  -1 <= x <= 1 -> js_max (-1) (js_min 1 x) == x.
Proof.
  intros [H1 H2]. unfold js_max, js_min.
  destruct (Qle_bool 1 x) eqn:E1; [apply Qle_bool_iff in E1|];
  destruct (Qle_bool (-1) _) eqn:E2; try apply Qle_bool_iff in E2; try lra.
  all: exfalso; apply Bool.not_true_iff_false in E2; apply E2, Qle_bool_iff;
    lra.
Qed.

(** Bounds on the 16-bit value of one encoded sample. *)
Lemma encode_bounds (x : Q) :
  -1 <= x <= 1 ->
  let t := floatToPcm16_sample x in
  (-32768 <= t <= 32767)%Z /\
  (0 <= x -> inject_Z t <= x * 32767 < inject_Z t + 1) /\
  (x < 0 -> inject_Z t - 1 < x * 32768 <= inject_Z t).
Proof.
  intros Hx. pose proof (clamp_in_range x Hx) as Hs.
  unfold floatToPcm16_sample.
  set (s := js_max (-1) (js_min 1 x)) in *.
  destruct (Qle_bool 0 s) eqn:E; simpl.
  - apply Qle_bool_iff in E.
    assert (Ht : trunc (s * 32767) = Qfloor (s * 32767)).
    { unfold trunc. replace (Qle_bool 0 (s * 32767)) with true; [reflexivity|].
      symmetry. apply Qle_bool_iff. lra. }
    pose proof (Qfloor_le (s * 32767)) as Hf1.
    pose proof (Qlt_floor (s * 32767)) as Hf2.
    rewrite inject_Z_plus in Hf2.
    assert (Hb : (-32768 <= Qfloor (s * 32767) <= 32767)%Z).
    { pose proof (Qfloor_resp_le 0 (s * 32767) ltac:(lra)) as L1.
      pose proof (Qfloor_resp_le (s * 32767) 32767 ltac:(lra)) as L2.
      change (Qfloor 0) with 0%Z in L1. change (Qfloor 32767) with 32767%Z in L2.
      lia. }
    rewrite toInt16_small; rewrite Ht; [|exact Hb].
    split; [exact Hb|]. split; intros; change (inject_Z 1) with 1 in Hf2;
      [split; lra | exfalso; lra].
  - assert (E' : s < 0).
    { apply Qnot_le_lt. intros H. apply Qle_bool_iff in H. congruence. }
    assert (Ht : trunc (s * 32768) = Qceiling (s * 32768)).
    { unfold trunc. replace (Qle_bool 0 (s * 32768)) with false; [reflexivity|].
      symmetry. apply Bool.not_true_iff_false. intros H.
      apply Qle_bool_iff in H. lra. }
    pose proof (Qle_ceiling (s * 32768)) as Hc1.
    pose proof (Qceiling_lt (s * 32768)) as Hc2.
    unfold Z.sub in Hc2. rewrite inject_Z_plus in Hc2.
    change (inject_Z (- (1))) with (-1) in Hc2.
    assert (Hb : (-32768 <= Qceiling (s * 32768) <= 32767)%Z).
    { pose proof (Qceiling_resp_le (-32768) (s * 32768) ltac:(lra)) as L1.
      pose proof (Qceiling_resp_le (s * 32768) 0 ltac:(lra)) as L2.
      change (Qceiling (-32768)) with (-32768)%Z in L1.
      change (Qceiling 0) with 0%Z in L2.
      lia. }
    rewrite toInt16_small; rewrite Ht; [|exact Hb].
    split; [exact Hb|]. split; intros; [exfalso; lra | split; lra].
Qed.

(** Error of one sample through encode, serialise and decode. *)
Lemma sample_error (x : Q) :
  -1 <= x <= 1 ->
  roundtrip [x] = [inject_Z (floatToPcm16_sample x) / 32768] /\
  Qabs (inject_Z (floatToPcm16_sample x) / 32768 - x) < 2 # 32768 /\
  (x <= 0 -> Qabs (inject_Z (floatToPcm16_sample x) / 32768 - x) <= 1 # 32768).
Proof.
  intros Hx. destruct (encode_bounds x Hx) as (Hb & Hpos & Hneg).
  split.
  { unfold roundtrip, floatToPcm16, pcm16_bytes, setInt16_le. simpl.
    rewrite int16_le_roundtrip by exact Hb. reflexivity. }
  set (t := floatToPcm16_sample x) in *.
  destruct (Qlt_le_dec x 0) as [Hl|Hl].
  - specialize (Hneg Hl). split; [|intros _];
      apply Qabs_Qlt_condition || apply Qabs_Qle_condition;
      unfold Qdiv; change (/ 32768) with (1 # 32768); split; lra.
  - specialize (Hpos Hl). split.
    + apply Qabs_Qlt_condition. unfold Qdiv.
      change (/ 32768) with (1 # 32768). split; lra.
    + intros H0. assert (Hx0 : x == 0) by lra.
      apply Qabs_Qle_condition. unfold Qdiv.
      change (/ 32768) with (1 # 32768). split; lra.
Qed.

(** C4 as stated fails: [65535/65536] (a float32 value) decodes to
    [32766/32768], at distance [3/65536 > 1/32768]. *)
Lemma roundtrip_error_exceeds_bound :
  let x := 65535 # 65536 in
  -1 <= x <= 1 /\
  roundtrip [x] = [inject_Z 32766 / 32768] /\
  ~ (Qabs (inject_Z 32766 / 32768 - x) <= 1 # 32768).
Proof.
  split; [split; apply Qle_bool_iff; reflexivity|].
  split; [vm_compute; reflexivity|].
  intros H. apply Qle_bool_iff in H. vm_compute in H. discriminate.
Qed.

(** C4 (amended): for every block of samples in [-1, 1], the decoding of
    its PCM16 encoding has the same length and each decoded sample is at
    distance strictly less than [2/32768] from the original one (at most
    [1/32768] for non-positive samples). *)
Theorem roundtrip_error_bound (input : list Q) :
  Forall (fun x => -1 <= x <= 1) input ->
  Forall2 (fun x y => Qabs (y - x) < 2 # 32768 /\
                      (x <= 0 -> Qabs (y - x) <= 1 # 32768))
    input (roundtrip input).
Proof.
  unfold roundtrip. induction 1 as [|x l Hx Hl IH]; simpl; [constructor|].
  destruct (sample_error x Hx) as (Heq & Hlt & Hle).
  unfold roundtrip in Heq. simpl in Heq.
  rewrite (int16_le_roundtrip _ (proj1 (encode_bounds x Hx))).
  constructor; [split; assumption | exact IH].
Qed.

Lemma roundtrip_error_bound_witness :
  let input := [-1; -1 # 3; 0; 65535 # 65536; 1] in
  Forall (fun x => -1 <= x <= 1) input /\
  Forall2 (fun x y => Qabs (y - x) < 2 # 32768 /\
                      (x <= 0 -> Qabs (y - x) <= 1 # 32768))
    input (roundtrip input).
Proof.
  intros input. split.
  - repeat constructor; apply Qle_bool_iff; reflexivity.
  - apply roundtrip_error_bound.
    repeat constructor; apply Qle_bool_iff; reflexivity.
Defined.

End CodecFacts.

(* ------------------------------------------------------------------ *)
(** * The WebSocket session of [Content.js] *)

(** One run of the [useEffect] body while [isEngaged] is true:
    [setupWebSocketConnection] with its closure variables
    [reconnectAttempts], [maxReconnectAttempts = 5],
    [reconnectInterval = 2000], the handlers of [connect()], and the
    microphone handlers installed by [initMicrophone].  Sockets are numbered
    in the order [connect()] creates them; [wsRef.current] is the last one. *)
Module Session.

Inductive ReadyState := Connecting | Open | Closed.

(** Messages sent on a socket. *)
Inductive WsMsg :=
  | Config (knowledgeBaseId region : String.string)
  | AudioFrame
  | Ping.

Definition maxReconnectAttempts : nat := 5.
Definition reconnectInterval : Z := 2000.

Record World := mkWorld {
  knowledgeBaseId : String.string;   (* from aws-exports *)
  bedrockRegion : String.string;     (* from aws-exports *)
  isEngaged : bool;                  (* value captured by the effect *)
  engagedState : bool;               (* React state, set by setEngaged *)
  reconnectAttempts : nat;
  sock : nat;                        (* wsRef.current *)
  ready : ReadyState;                (* wsRef.current.readyState *)
  pendingOpen : nat;                 (* onopen bodies awaiting initMicrophone *)
  procs : nat;                       (* onaudioprocess handlers installed *)
  reconnectTimer : option Z;         (* pending reconnect setTimeout *)
  heartbeat : bool;                  (* heartbeatInterval running *)
  sent : list (nat * WsMsg);         (* ws.send calls, with the socket *)
  scheduled : list Z;                (* delays of reconnect setTimeouts *)
  connects : nat                     (* calls of connect() *)
}.

(** Events of the main thread's event loop. *)
Inductive Event :=
  | EOpen                      (* the current socket fires 'open' *)
  | EMicReady (granted : bool) (* getUserMedia settles for a pending onopen *)
  | EAudio (i : nat)           (* onaudioprocess of the i-th handler *)
  | EClose                     (* the current socket fires 'close' *)
  | EReconnect.                (* the reconnect timeout fires *)

(** The effect runs [initAudioWorklet()] then [connect()]. *)
Definition init (kb region : String.string) : World := {|
  knowledgeBaseId := kb; bedrockRegion := region;
  isEngaged := true; engagedState := true;
  reconnectAttempts := 0; sock := 0; ready := Connecting;
  pendingOpen := 0; procs := 0; reconnectTimer := None; heartbeat := false;
  sent := []; scheduled := []; connects := 1
|}.

Definition ready_eqb (a b : ReadyState) : bool :=
  match a, b with
  | Connecting, Connecting | Open, Open | Closed, Closed => true
  | _, _ => false
  end.

(** Field update, with every field named. *)
Definition upd (w : World) (engaged : bool) (attempts : nat) (sk : nat)
    (rs : ReadyState) (pend pr : nat) (timer : option Z) (hb : bool)
    (snt : list (nat * WsMsg)) (sch : list Z) (cn : nat) : World :=
  {| knowledgeBaseId := knowledgeBaseId w; bedrockRegion := bedrockRegion w;
     isEngaged := isEngaged w; engagedState := engaged;
     reconnectAttempts := attempts; sock := sk; ready := rs;
     pendingOpen := pend; procs := pr; reconnectTimer := timer;
     heartbeat := hb; sent := snt; scheduled := sch; connects := cn |}.

(** [wsRef.current.send(m)] *)
Definition send (w : World) (m : WsMsg) : list (nat * WsMsg) :=
  sent w ++ [(sock w, m)].

Definition step (w : World) (e : Event) : World :=
  match e with
  | EOpen =>
      (* reconnectAttempts = 0; await initMicrophone() *)
      if ready_eqb (ready w) Connecting then
        upd w (engagedState w) 0 (sock w) Open (S (pendingOpen w)) (procs w)
          (reconnectTimer w) (heartbeat w) (sent w) (scheduled w) (connects w)
      else w
  | EMicReady granted =>
      (* end of initMicrophone (handler installed if the stream was
         granted), then: if OPEN, send config; start the heartbeat *)
      match pendingOpen w with
      | O => w
      | S p =>
          let pr := if granted then S (procs w) else procs w in
          let snt := if ready_eqb (ready w) Open
                     then send w (Config (knowledgeBaseId w) (bedrockRegion w))
                     else sent w in
          upd w (engagedState w) (reconnectAttempts w) (sock w) (ready w) p pr
            (reconnectTimer w) true snt (scheduled w) (connects w)
      end
  | EAudio i =>
      (* if (wsRef.current?.readyState === WebSocket.OPEN) send(base64) *)
      if (i <? procs w)%nat && ready_eqb (ready w) Open then
        upd w (engagedState w) (reconnectAttempts w) (sock w) (ready w)
          (pendingOpen w) (procs w) (reconnectTimer w) (heartbeat w)
          (send w AudioFrame) (scheduled w) (connects w)
      else w
  | EClose =>
      if ready_eqb (ready w) Closed then w
      else if isEngaged w && (reconnectAttempts w <? maxReconnectAttempts)%nat
      then
        upd w (engagedState w) (S (reconnectAttempts w)) (sock w) Closed
          (pendingOpen w) (procs w) (Some reconnectInterval) false (sent w)
          (scheduled w ++ [reconnectInterval]) (connects w)
      else if (maxReconnectAttempts <=? reconnectAttempts w)%nat then
        upd w false (reconnectAttempts w) (sock w) Closed
          (pendingOpen w) (procs w) (reconnectTimer w) false (sent w)
          (scheduled w) (connects w)
      else
        upd w (engagedState w) (reconnectAttempts w) (sock w) Closed
          (pendingOpen w) (procs w) (reconnectTimer w) false (sent w)
          (scheduled w) (connects w)
  | EReconnect =>
      (* connect(): wsRef.current = new WebSocket(...) *)
      match reconnectTimer w with
      | None => w
      | Some _ =>
          upd w (engagedState w) (reconnectAttempts w) (S (sock w)) Connecting
            (pendingOpen w) (procs w) None (heartbeat w) (sent w)
            (scheduled w) (S (connects w))
      end
  end.

Definition run (w : World) (evs : list Event) : World := fold_left step evs w.

(** Messages sent on socket [k], in order. *)
Definition msgs_on (k : nat) (l : list (nat * WsMsg)) : list WsMsg :=
  map snd (filter (fun p => Nat.eqb (fst p) k) l).

Definition is_config (m : WsMsg) : bool :=
  match m with Config _ _ => true | _ => false end.

(** Every connection attempt fails: its socket closes without opening,
    and the close handler runs; repeated while a reconnect is scheduled. *)
Fixpoint fail_all (fuel : nat) (w : World) : World :=
  match fuel with
  | O => w
  | S f =>
      let w1 := step w EClose in
      match reconnectTimer w1 with
      | Some _ => fail_all f (step w1 EReconnect)
      | None => w1
      end
  end.

End Session.

Module SessionFacts.
Import Session.

Lemma fail_all_from (k : nat) : forall fuel w,
  (k <= 5)%nat -> reconnectAttempts w = (5 - k)%nat -> isEngaged w = true ->
  ready w <> Closed -> reconnectTimer w = None -> (k < fuel)%nat ->
  let w' := fail_all fuel w in
  connects w' = (connects w + k)%nat /\
  scheduled w' = scheduled w ++ repeat reconnectInterval k /\
  engagedState w' = false /\ ready w' = Closed /\ reconnectTimer w' = None.
Proof.
  induction k as [|k IH]; intros fuel w Hk Ha He Hr Ht Hf;
    destruct fuel as [|fuel]; try lia; cbn [fail_all];
    assert (Hc : ready_eqb (ready w) Closed = false)
      by (destruct (ready w); simpl; congruence).
  - assert (Hw1 : step w EClose =
      upd w false (reconnectAttempts w) (sock w) Closed (pendingOpen w)
        (procs w) (reconnectTimer w) false (sent w) (scheduled w) (connects w))
      by (unfold step; rewrite Hc, He, Ha; reflexivity).
    rewrite Hw1. simpl. rewrite Ht.
    repeat split; simpl; rewrite ?app_nil_r; auto; lia.
  - assert (Hw1 : step w EClose =
      upd w (engagedState w) (S (reconnectAttempts w)) (sock w) Closed
        (pendingOpen w) (procs w) (Some reconnectInterval) false (sent w)
        (scheduled w ++ [reconnectInterval]) (connects w)).
    { unfold step; rewrite Hc, He.
      replace (reconnectAttempts w <? maxReconnectAttempts)%nat with true
        by (symmetry; apply Nat.ltb_lt; rewrite Ha;
            unfold maxReconnectAttempts; lia).
      reflexivity. }
    rewrite Hw1. cbn [reconnectTimer upd].
    set (w2 := step _ EReconnect).
    assert (Hw2 : reconnectAttempts w2 = S (reconnectAttempts w) /\
                  isEngaged w2 = isEngaged w /\ ready w2 = Connecting /\
                  reconnectTimer w2 = None /\ connects w2 = S (connects w) /\
                  scheduled w2 = scheduled w ++ [reconnectInterval])
      by (unfold w2, step; cbn [reconnectTimer upd]; repeat split).
    destruct Hw2 as (Ha2 & He2 & Hr2 & Ht2 & Hc2 & Hs2).
    destruct (IH fuel w2) as (Hcn & Hsch & Heng & Hrd & Htm);
      try lia; try congruence.
    split; [lia|]. split; [|auto].
    rewrite Hsch, Hs2, <- app_assoc. reflexivity.
Qed.

(** ** C6 *)
(** C6: after an unexpected close of the current socket while engaged
    (the attempt counter being 0, as every socket open sets it), if every
    later connection attempt fails, exactly 5 reconnections are made, each
    scheduled after 2000 ms; the session is then disengaged
    ([setEngaged(false)]) and no further close or timer event starts
    another attempt. *)
Theorem reconnect_bounded (fuel : nat) (w : World) :
  isEngaged w = true -> reconnectAttempts w = 0%nat -> ready w <> Closed ->
  reconnectTimer w = None -> (5 < fuel)%nat ->
  let w' := fail_all fuel w in
  connects w' = (connects w + 5)%nat /\
  scheduled w' = scheduled w ++ repeat 2000 5 /\
  engagedState w' = false /\
  step w' EClose = w' /\ step w' EReconnect = w'.
Proof.
  intros He Ha Hr Ht Hf.
  destruct (fail_all_from 5 fuel w) as (Hcn & Hsch & Heng & Hrd & Htm);
    auto; try lia.
  repeat split; auto.
  - unfold step. rewrite Hrd. reflexivity.
  - unfold step. rewrite Htm. reflexivity.
Qed.

Lemma reconnect_bounded_witness :
  let w := step (init String.EmptyString String.EmptyString) EOpen in
  (isEngaged w = true /\ reconnectAttempts w = 0%nat /\ ready w <> Closed /\
   reconnectTimer w = None /\ (5 < 10)%nat) /\
  (let w' := fail_all 10 w in
   connects w' = (connects w + 5)%nat /\
   scheduled w' = scheduled w ++ repeat 2000 5 /\
   engagedState w' = false /\
   step w' EClose = w' /\ step w' EReconnect = w').
Proof.
  intros w. split.
  - repeat split; try reflexivity; [discriminate | lia].
  - apply (reconnect_bounded 10 w); try reflexivity; [discriminate | lia].
Defined.

(** ** C5 *)
(** C5 as stated fails: after a failed connection (counter 1) the next
    socket open resets the counter to 0 before any Config is sent on the
    new socket; if that socket then closes, no Config was ever sent on it. *)
Lemma counter_reset_without_config :
  let w2 := run (init String.EmptyString String.EmptyString) [EClose; EReconnect] in
  let w3 := step w2 EOpen in
  let w4 := step w3 EClose in
  reconnectAttempts w2 = 1%nat /\ reconnectAttempts w3 = 0%nat /\
  msgs_on 1 (sent w4) = [].
Proof. vm_compute. repeat split. Qed.

(** C5 (amended): the counter is reset to 0 when the current socket opens,
    at the start of [onopen], before the microphone set-up and before any
    Config message is sent; completing the microphone set-up (and sending
    the Config message) leaves the counter unchanged. *)
Theorem counter_reset_on_open (w : World) :
  ready w = Connecting ->
  reconnectAttempts (step w EOpen) = 0%nat /\ sent (step w EOpen) = sent w /\
  ready (step w EOpen) = Open /\
  (forall granted,
     reconnectAttempts (step (step w EOpen) (EMicReady granted)) = 0%nat).
Proof.
  intros Hr.
  assert (Ho : step w EOpen =
    upd w (engagedState w) 0 (sock w) Open (S (pendingOpen w)) (procs w)
      (reconnectTimer w) (heartbeat w) (sent w) (scheduled w) (connects w))
    by (unfold step; rewrite Hr; reflexivity).
  rewrite Ho. split; [reflexivity|]. split; [reflexivity|].
  split; [reflexivity|]. intros g. reflexivity.
Qed.

Lemma counter_reset_on_open_witness :
  let w := run (init String.EmptyString String.EmptyString) [EClose; EReconnect] in
  ready w = Connecting /\
  (reconnectAttempts (step w EOpen) = 0%nat /\ sent (step w EOpen) = sent w /\
   ready (step w EOpen) = Open /\
   (forall granted,
      reconnectAttempts (step (step w EOpen) (EMicReady granted)) = 0%nat)).
Proof.
  intros w. split; [reflexivity|].
  apply (counter_reset_on_open w). reflexivity.
Defined.

(** ** C7 *)

(** A Config message comes first and no other Config follows. *)
Definition config_first (kb region : String.string) (l : list WsMsg) : Prop :=
  l = [] \/
  exists rest, l = Config kb region :: rest /\
               Forall (fun m => is_config m = false) rest.

Lemma msgs_on_send (w : World) (m : WsMsg) :
  msgs_on 0 (send w m) =
  msgs_on 0 (sent w) ++ (if Nat.eqb (sock w) 0 then [m] else []).
Proof.
  unfold msgs_on, send. rewrite filter_app, map_app. simpl.
  destruct (Nat.eqb (sock w) 0); reflexivity.
Qed.

(** Invariant of the first socket of an engagement. *)
Definition first_socket_inv (kb region : String.string) (w : World) : Prop :=
  knowledgeBaseId w = kb /\ bedrockRegion w = region /\
  config_first kb region (msgs_on 0 (sent w)) /\
  (sock w = 0%nat ->
   (ready w = Connecting ->
      msgs_on 0 (sent w) = [] /\ procs w = 0%nat /\ pendingOpen w = 0%nat) /\
   (ready w = Open ->
      (pendingOpen w = 1%nat /\ procs w = 0%nat /\ msgs_on 0 (sent w) = []) \/
      (pendingOpen w = 0%nat /\ msgs_on 0 (sent w) <> []))).

Lemma ready_eqb_true (a b : ReadyState) : ready_eqb a b = true -> a = b.
Proof. destruct a, b; simpl; congruence. Qed.

Ltac proj_upd :=
  cbn [upd sock ready pendingOpen procs sent knowledgeBaseId bedrockRegion].

Lemma first_socket_step (kb region : String.string) (w : World) (e : Event) :
  first_socket_inv kb region w -> first_socket_inv kb region (step w e).
Proof.
  intros Hinv. pose proof Hinv as (Hkb & Hr & Hgood & Hs0).
  destruct e as [| granted | i | |]; unfold step.
  - (* EOpen *)
    destruct (ready_eqb (ready w) Connecting) eqn:E; [|exact Hinv].
    apply ready_eqb_true in E.
    unfold first_socket_inv; proj_upd.
    split; [exact Hkb|]. split; [exact Hr|]. split; [exact Hgood|].
    intros Hs. split; [intros H; discriminate|]. intros _. left.
    destruct (Hs0 Hs) as [Hc _]. destruct (Hc E) as (Hm & Hp & Hpo).
    rewrite Hpo. auto.
  - (* EMicReady *)
    destruct (pendingOpen w) as [|p] eqn:Hpo; [exact Hinv|].
    unfold first_socket_inv; proj_upd.
    split; [exact Hkb|]. split; [exact Hr|].
    destruct (ready_eqb (ready w) Open) eqn:E.
    + apply ready_eqb_true in E. rewrite msgs_on_send.
      destruct (Nat.eqb_spec (sock w) 0) as [Hs|Hs].
      * destruct (Hs0 Hs) as [_ HO].
        destruct (HO E) as [(Hp1 & _ & Hm) | (Hp0 & _)]; [|lia].
        rewrite Hm, Hkb, Hr. simpl.
        split; [right; exists []; auto|].
        intros _. split; [rewrite E; discriminate|].
        intros _. right. split; [lia | discriminate].
      * rewrite app_nil_r. split; [exact Hgood|]. intros H; contradiction.
    + split; [exact Hgood|]. intros Hs. destruct (Hs0 Hs) as [HC HO]. split.
      * intros Hc. destruct (HC Hc) as (_ & _ & H0). lia.
      * intros Ho. rewrite Ho in E. discriminate.
  - (* EAudio *)
    destruct ((i <? procs w)%nat && ready_eqb (ready w) Open) eqn:Ea;
      [|exact Hinv].
    apply andb_prop in Ea as [Hi Ho]. apply Nat.ltb_lt in Hi.
    apply ready_eqb_true in Ho.
    unfold first_socket_inv; proj_upd.
    split; [exact Hkb|]. split; [exact Hr|].
    rewrite msgs_on_send.
    destruct (Nat.eqb_spec (sock w) 0) as [Hs|Hs].
    + destruct (Hs0 Hs) as [_ HO].
      destruct (HO Ho) as [(_ & Hp & _) | (Hp0 & Hne)]; [lia|].
      destruct Hgood as [Hnil | (rest & Hl & Hf)]; [contradiction|].
      rewrite Hl. split.
      * right. exists (rest ++ [AudioFrame]). split; [reflexivity|].
        apply Forall_app. split; [exact Hf | repeat constructor].
      * intros _. split; [intros H; rewrite Ho in H; discriminate|].
        intros _. right. split; [exact Hp0|]. intros H.
        destruct rest; discriminate.
    + rewrite app_nil_r. split; [exact Hgood|]. intros H; contradiction.
  - (* EClose *)
    destruct (ready_eqb (ready w) Closed); [exact Hinv|].
    destruct (isEngaged w && _); [|destruct (_ <=? _)%nat];
      unfold first_socket_inv; proj_upd;
      (split; [exact Hkb|]; split; [exact Hr|]; split; [exact Hgood|];
       intros _; split; intros H; discriminate).
  - (* EReconnect *)
    destruct (reconnectTimer w); [|exact Hinv].
    unfold first_socket_inv; proj_upd.
    split; [exact Hkb|]. split; [exact Hr|]. split; [exact Hgood|].
    intros H; discriminate.
Qed.

(** C7 (amended): over every sequence of events of an engagement, the
    messages sent on its first socket are either none or a Config message
    carrying the configured (knowledgeBaseId, region), sent after the
    socket opened and microphone set-up finished, followed by no other
    Config message; so no captured audio precedes it.  Audio forwarding
    itself is gated only on the current socket being open. *)
Theorem first_socket_config_first (kb region : String.string)
    (evs : list Event) :
  config_first kb region (msgs_on 0 (sent (run (init kb region) evs))).
Proof.
  assert (H : forall w, first_socket_inv kb region w ->
                        first_socket_inv kb region (run w evs)).
  { unfold run. induction evs as [|e evs IH]; intros w Hw; simpl; auto.
    apply IH, first_socket_step, Hw. }
  apply H. unfold first_socket_inv; simpl.
  split; [reflexivity|]. split; [reflexivity|]. split; [left; reflexivity|].
  intros _. split; [intros _; repeat split | intros Hc; discriminate].
Qed.

(** C7 as stated fails on a reconnection.  (1) The microphone handler
    installed for the first socket forwards audio on the second socket as
    soon as it is open, before that socket's Config.  (2) When the first
    socket closes while its microphone set-up is pending, both pending
    set-ups later send a Config on the second socket. *)
Lemma config_not_first_after_reconnect :
  let kb := String.EmptyString in
  let w1 := run (init kb kb)
              [EOpen; EMicReady true; EClose; EReconnect; EOpen; EAudio 0] in
  let w2 := run (init kb kb)
              [EOpen; EClose; EReconnect; EOpen; EMicReady true;
               EMicReady true] in
  msgs_on 1 (sent w1) = [AudioFrame] /\
  msgs_on 1 (sent w2) = [Config kb kb; Config kb kb].
Proof. vm_compute. split; reflexivity. Qed.

End SessionFacts.

(* ------------------------------------------------------------------ *)
(** * Further properties of the worklet *)

Module AudioProcessorExtra.
Import AudioProcessor AudioProcessorFacts.

(** The [threshold] of [requestMoreDataIfNeeded]. *)
Definition threshold (s : AP) : Z :=
  if adaptiveBufferMode s then bufferThreshold s * 2 else bufferThreshold s.

(** The knowledge-base mode messages. *)
Definition is_mode_msg (m : InMsg) : bool :=
  match m with MsgKbModeOn | MsgKbModeOff => true | _ => false end.

(** The unconsumed samples [buffer[position..]]. *)
Definition unconsumed (s : AP) : list Q := skipn (position s) (buffer s).

Lemma request_outbox (s : AP) :
  outbox (requestMoreDataIfNeeded s) =
  outbox s ++ (if (remaining s <? threshold s) && negb (needDataRequested s)
               then [NeedData] else []).
Proof.
  unfold requestMoreDataIfNeeded, threshold. cbv zeta.
  destruct (_ && _); simpl; [reflexivity | rewrite app_nil_r; reflexivity].
Qed.






(** Ticks only, as operations of [run]. *)
Definition tick_ops (ticks : list (nat * Z)) : list Op :=
  map (fun '(n, t) => OpPull n t) ticks.

(** A 'stop' message empties the buffer, zeroes the cursor, stops playback
    and posts 'stopped' once. Every later audio tick, until the next
    message, outputs silence of the block's length and changes nothing, so
    no 'needData' is posted. *)
Theorem stop_then_silent (sr : Z) (s : AP) (ticks : list (nat * Z)) :
  let s1 := onmessage s MsgStop in
  buffer s1 = [] /\ position s1 = 0%nat /\ isPlaying s1 = false /\
  outbox s1 = outbox s ++ [Stopped] /\
  run sr s1 (tick_ops ticks) = (s1, map (fun '(n, _) => silence n) ticks).
Proof.
  intros s1. split; [reflexivity|]. split; [reflexivity|].
  split; [reflexivity|]. split; [reflexivity|].
  induction ticks as [|[n t] ticks IH]; [reflexivity|].
  cbn [tick_ops map run]. unfold tick_ops in IH.
  replace (process sr s1 n t) with (s1, silence n) by reflexivity.
  rewrite IH. reflexivity.
Qed.

(** After a 'clear' or 'stop' message followed by a data frame, in every
    run of appends and fed pulls the pulled samples form a prefix of the
    frames appended since then. No sample buffered before the clear or
    stop is ever played. *)
Theorem reset_discards_old_samples (sr : Z) (s : AP) (m : InMsg)
    (a : list Q) (t : Z) (ops : list Op) :
  m = MsgClear \/ m = MsgStop ->
  fed sr (onmessage s m) (OpAppend a t :: ops) = true ->
  exists rest,
    concat (snd (run sr (onmessage s m) (OpAppend a t :: ops))) ++ rest
    = a ++ appended ops.
Proof.
  intros Hm Hf. cbn [run fed] in *.
  set (s1 := onmessage (onmessage s m) (MsgData a t)) in *.
  exists (skipn (position (fst (run sr s1 ops))) (buffer (fst (run sr s1 ops)))).
  rewrite run_fed_samples; [| reflexivity | | exact Hf].
  - destruct Hm as [-> | ->]; reflexivity.
  - unfold cursor_ok. destruct Hm as [-> | ->]; simpl; lia.
Qed.

(** Two consecutive 'data' messages leave the worklet in the same state as
    one 'data' message carrying the concatenation of both frames, received
    at the second one's time. *)
Theorem append_compose (s : AP) (a b : list Q) (t1 t2 : Z) :
  onmessage (onmessage s (MsgData a t1)) (MsgData b t2) =
  onmessage s (MsgData (a ++ b) t2).
Proof. simpl. rewrite app_assoc. reflexivity. Qed.

(** Of two consecutive knowledge-base mode messages ('kb_mode_on' or
    'kb_mode_off'), only the last one matters. A mode message leaves the
    buffer, the cursor, the playing state, the request flag, the counters
    and the posted messages unchanged. *)
Theorem mode_last_wins (s : AP) (m1 m2 : InMsg) :
  is_mode_msg m1 = true -> is_mode_msg m2 = true ->
  onmessage (onmessage s m1) m2 = onmessage s m2 /\
  buffer (onmessage s m2) = buffer s /\ position (onmessage s m2) = position s /\
  isPlaying (onmessage s m2) = isPlaying s /\
  needDataRequested (onmessage s m2) = needDataRequested s /\
  recoveryAttempts (onmessage s m2) = recoveryAttempts s /\
  silenceFillCount (onmessage s m2) = silenceFillCount s /\
  outbox (onmessage s m2) = outbox s.
Proof.
  destruct m1, m2; simpl; intros H1 H2; try discriminate; repeat split.
Qed.

(** Consider a playing tick that finds too few samples after the
    starvation timeout, once the recovery attempts have reached
    maxRecoveryAttempts. It outputs silence, empties the buffer, zeroes
    the cursor, clears the request flag, resets both counters to 0 and
    posts exactly one 'bufferReset'. *)
Theorem exhausted_recovery_resets (sr : Z) (s : AP) (n : nat) (now : Z) :
  isPlaying s = true -> remaining s < Z.of_nat n ->
  starvationTimeout s < now - lastDataTime s ->
  maxRecoveryAttempts s <= recoveryAttempts s ->
  let (s', out) := process sr s n now in
  out = silence n /\ buffer s' = [] /\ position s' = 0%nat /\
  needDataRequested s' = false /\ recoveryAttempts s' = 0 /\
  silenceFillCount s' = 0 /\
  count_msg BufferReset (outbox s') = S (count_msg BufferReset (outbox s)).
Proof.
  intros Hp Hn Ht Hra. unfold process. rewrite Hp. simpl.
  destruct (request_fields s) as (_ & _ & _ & Hldt & Hst & Hr & Hmax & _).
  rewrite remaining_request.
  destruct (Z.ltb_spec (remaining s) (Z.of_nat n)); [|lia].
  unfold handleStarvation. cbv zeta. rewrite Hldt, Hst, Hr, Hmax.
  destruct (Z.ltb_spec (starvationTimeout s) (now - lastDataTime s)); [|lia].
  destruct (Z.ltb_spec (recoveryAttempts s) (maxRecoveryAttempts s)); [lia|].
  simpl. repeat split.
  unfold count_msg. rewrite filter_app, length_app, request_outbox.
  rewrite filter_app, length_app. simpl.
  destruct (_ && _); simpl; lia.
Qed.

(** An audio tick posts 'bufferReset' only when the worklet is playing,
    has fewer unconsumed samples than the block needs, and the starvation
    timeout has elapsed since the last data message. The worklet never
    resets its buffer before the timeout. *)
Theorem buffer_reset_needs_timeout (sr : Z) (s : AP) (n : nat) (now : Z) :
  count_msg BufferReset (outbox (fst (process sr s n now))) <>
    count_msg BufferReset (outbox s) ->
  isPlaying s = true /\ remaining s < Z.of_nat n /\
  starvationTimeout s < now - lastDataTime s.
Proof.
  intros Hc. unfold process in Hc.
  destruct (isPlaying s) eqn:Hp; simpl in Hc; [|congruence].
  assert (Hreq : count_msg BufferReset (outbox (requestMoreDataIfNeeded s)) =
                 count_msg BufferReset (outbox s)).
  { unfold count_msg. rewrite request_outbox, filter_app, length_app.
    destruct (_ && _); simpl; lia. }
  destruct (request_fields s) as (_ & _ & _ & Hldt & Hst & _).
  rewrite remaining_request in Hc.
  destruct (Z.ltb_spec (remaining s) (Z.of_nat n)).
  - unfold handleStarvation in Hc. cbv zeta in Hc. rewrite Hldt, Hst in Hc.
    destruct (Z.ltb_spec (starvationTimeout s) (now - lastDataTime s)).
    + auto.
    + simpl in Hc. congruence.
  - destruct (_ <? _); simpl in Hc; congruence.
Qed.

(** Ticks after the starvation timeout, with no data. *)
Definition late_ticks : list (nat * Z) :=
  map (fun k => (128%nat, 30001 + Z.of_nat k)) (seq 0 10).

Lemma run_events_preserves (P : AP -> Prop) (sr : Z) :
  (forall s e, P s -> P (step sr s e)) ->
  forall evs s, P s -> P (run_events sr s evs).
Proof.
  intros Hstep evs. unfold run_events.
  induction evs as [|e evs IH]; intros s Hs; simpl; auto.
Qed.

Lemma handle_ra (s : AP) (now : Z) :
  let s' := fst (handleStarvation s now) in
  maxRecoveryAttempts s' = maxRecoveryAttempts s /\
  (recoveryAttempts s' = recoveryAttempts s \/ recoveryAttempts s' = 0 \/
   (recoveryAttempts s' = recoveryAttempts s + 1 /\
    recoveryAttempts s < maxRecoveryAttempts s)).
Proof.
  unfold handleStarvation. cbv zeta.
  destruct (_ <? _); [|simpl; auto].
  destruct (Z.ltb_spec (recoveryAttempts s) (maxRecoveryAttempts s));
    [|simpl; auto].
  destruct (request_fields (set_flags s (isPlaying s) (lastDataTime s) false
              (recoveryAttempts s + 1) (silenceFillCount s + 1)))
    as (_ & _ & _ & _ & _ & Hr & Hm & _).
  simpl in Hr, Hm.
  destruct (_ <? _); simpl; rewrite Hr, Hm; auto.
Qed.

Lemma process_ra (sr : Z) (s : AP) (n : nat) (now : Z) :
  let s' := fst (process sr s n now) in
  maxRecoveryAttempts s' = maxRecoveryAttempts s /\
  (recoveryAttempts s' = recoveryAttempts s \/ recoveryAttempts s' = 0 \/
   (recoveryAttempts s' = recoveryAttempts s + 1 /\
    recoveryAttempts s < maxRecoveryAttempts s)).
Proof.
  unfold process. destruct (isPlaying s); simpl; [|auto].
  destruct (request_fields s) as (_ & _ & _ & _ & _ & Hr & Hm & _).
  destruct (_ <? _).
  - pose proof (handle_ra (requestMoreDataIfNeeded s) now) as Hh.
    destruct (handleStarvation (requestMoreDataIfNeeded s) now) as [s2 ok].
    simpl in Hh. rewrite Hr, Hm in Hh.
    destruct ok; simpl; exact Hh.
  - destruct (_ <? _); simpl; rewrite Hr, Hm; auto.
Qed.

Definition ra_ok (s : AP) : Prop :=
  0 <= recoveryAttempts s <= maxRecoveryAttempts s /\
  maxRecoveryAttempts s = 10.

Lemma step_ra (sr : Z) (s : AP) (e : Event) : ra_ok s -> ra_ok (step sr s e).
Proof.
  unfold ra_ok. intros H. destruct e as [m|n now].
  - destruct m; simpl; lia.
  - simpl. destruct (process_ra sr s n now) as (Hm & Hr). lia.
Qed.

(** From construction, after any sequence of messages and audio ticks, the
    recovery-attempt counter stays between 0 and maxRecoveryAttempts (10). *)
Theorem recovery_attempts_bounded (sr t0 : Z) (evs : list Event) :
  0 <= recoveryAttempts (run_events sr (init t0) evs) <= 10.
Proof.
  assert (H : ra_ok (run_events sr (init t0) evs)).
  { apply run_events_preserves; [apply step_ra|]. unfold ra_ok; simpl; lia. }
  destruct H as [H1 H2]. lia.
Qed.




(** A tick of a playing worklet holding at least n unconsumed samples
    outputs the next n of them. It leaves exactly the rest unconsumed,
    whether or not it compacts the buffer, and resets the silence-fill
    count to 0. *)
Theorem pull_consumes_next (sr : Z) (s : AP) (n : nat) (now : Z) :
  isPlaying s = true -> Z.of_nat n <= remaining s ->
  let (s', out) := process sr s n now in
  out = firstn n (unconsumed s) /\
  unconsumed s' = skipn n (unconsumed s) /\ silenceFillCount s' = 0.
Proof.
  intros Hp Hn. pose proof (process_copy sr s n now Hp Hn) as Hc.
  assert (Hs : silenceFillCount (fst (process sr s n now)) = 0).
  { unfold process. rewrite Hp. simpl. rewrite remaining_request.
    destruct (Z.ltb_spec (remaining s) (Z.of_nat n)); [lia|].
    destruct (_ <? _); reflexivity. }
  destruct (process sr s n now) as [s' out]. simpl in Hs.
  destruct Hc as (Ho & Hk & _). unfold unconsumed.
  split; [exact Ho|]. split; [|exact Hs].
  rewrite Hk, skipn_skipn. f_equal. lia.
Qed.

(** Witnesses. *)


Lemma reset_discards_old_samples_witness :
  let s := onmessage (init 0) (MsgData [1; 2; 3]%Q 0) in
  let ops := [OpPull 2 2] in
  (MsgStop = MsgClear \/ MsgStop = MsgStop) /\
  fed 16000 (onmessage s MsgStop) (OpAppend [4; 5]%Q 1 :: ops) = true /\
  exists rest,
    concat (snd (run 16000 (onmessage s MsgStop) (OpAppend [4; 5]%Q 1 :: ops)))
      ++ rest = [4; 5]%Q ++ appended ops.
Proof.
  intros s ops. split; [right; reflexivity|]. split; [vm_compute; reflexivity|].
  apply (reset_discards_old_samples 16000 s MsgStop [4; 5]%Q 1 ops);
    [right; reflexivity | vm_compute; reflexivity].
Defined.

Lemma mode_last_wins_witness :
  let s := init 0 in
  is_mode_msg MsgKbModeOn = true /\ is_mode_msg MsgKbModeOff = true /\
  (onmessage (onmessage s MsgKbModeOn) MsgKbModeOff = onmessage s MsgKbModeOff /\
   buffer (onmessage s MsgKbModeOff) = buffer s /\
   position (onmessage s MsgKbModeOff) = position s /\
   isPlaying (onmessage s MsgKbModeOff) = isPlaying s /\
   needDataRequested (onmessage s MsgKbModeOff) = needDataRequested s /\
   recoveryAttempts (onmessage s MsgKbModeOff) = recoveryAttempts s /\
   silenceFillCount (onmessage s MsgKbModeOff) = silenceFillCount s /\
   outbox (onmessage s MsgKbModeOff) = outbox s).
Proof.
  intros s. split; [reflexivity|]. split; [reflexivity|].
  apply (mode_last_wins s MsgKbModeOn MsgKbModeOff); reflexivity.
Defined.

Lemma exhausted_recovery_resets_witness :
  let s := pulls 16000 (init 0) late_ticks in
  isPlaying s = true /\ remaining s < Z.of_nat 128 /\
  starvationTimeout s < 30011 - lastDataTime s /\
  maxRecoveryAttempts s <= recoveryAttempts s /\
  (let (s', out) := process 16000 s 128 30011 in
   out = silence 128 /\ buffer s' = [] /\ position s' = 0%nat /\
   needDataRequested s' = false /\ recoveryAttempts s' = 0 /\
   silenceFillCount s' = 0 /\
   count_msg BufferReset (outbox s') = S (count_msg BufferReset (outbox s))).
Proof.
  intros s.
  assert (H1 : isPlaying s = true) by (vm_compute; reflexivity).
  assert (H2 : remaining s < Z.of_nat 128) by (vm_compute; reflexivity).
  assert (H3 : starvationTimeout s < 30011 - lastDataTime s)
    by (vm_compute; reflexivity).
  assert (H4 : maxRecoveryAttempts s <= recoveryAttempts s)
    by (vm_compute; discriminate).
  split; [exact H1|]. split; [exact H2|]. split; [exact H3|].
  split; [exact H4|].
  apply (exhausted_recovery_resets 16000 s 128 30011 H1 H2 H3 H4).
Defined.

Lemma buffer_reset_needs_timeout_witness :
  let s := pulls 16000 (init 0) late_ticks in
  count_msg BufferReset (outbox (fst (process 16000 s 128 30011))) <>
    count_msg BufferReset (outbox s) /\
  (isPlaying s = true /\ remaining s < Z.of_nat 128 /\
   starvationTimeout s < 30011 - lastDataTime s).
Proof.
  intros s.
  assert (H : count_msg BufferReset (outbox (fst (process 16000 s 128 30011)))
              <> count_msg BufferReset (outbox s))
    by (vm_compute; discriminate).
  split; [exact H|]. apply (buffer_reset_needs_timeout 16000 s 128 30011 H).
Defined.


Lemma pull_consumes_next_witness :
  let s := onmessage (init 0) (MsgData [1; 2; 3]%Q 0) in
  isPlaying s = true /\ Z.of_nat 2 <= remaining s /\
  (let (s', out) := process 16000 s 2 1 in
   out = firstn 2 (unconsumed s) /\
   unconsumed s' = skipn 2 (unconsumed s) /\ silenceFillCount s' = 0).
Proof.
  intros s.
  assert (H1 : isPlaying s = true) by reflexivity.
  assert (H2 : Z.of_nat 2 <= remaining s) by (vm_compute; discriminate).
  split; [exact H1|]. split; [exact H2|].
  apply (pull_consumes_next 16000 s 2 1 H1 H2).
Defined.

End AudioProcessorExtra.

(* ------------------------------------------------------------------ *)
(** * Further properties of the PCM16 codec *)

Module CodecExtra.
Import Codec CodecFacts.
Open Scope Q_scope.

(** A 16-bit signed value. *)
Definition int16 (v : Z) : Prop := (-32768 <= v <= 32767)%Z.

(** A byte of a [Uint8Array]. *)
Definition byte (b : Z) : Prop := (0 <= b <= 255)%Z.

Ltac qbool :=
  repeat match goal with
  | H : Qle_bool _ _ = true |- _ => apply Qle_bool_iff in H
  | H : Qle_bool ?a ?b = false |- _ =>
      let H' := fresh H in
      assert (H' : b < a)
        by (apply Qnot_le_lt; intros X; apply Qle_bool_iff in X; congruence);
      clear H
  end.

Lemma clamp_spec (x : Q) :
  -1 <= js_max (-1) (js_min 1 x) <= 1 /\
  (x <= -1 -> js_max (-1) (js_min 1 x) == -1) /\
  (1 <= x -> js_max (-1) (js_min 1 x) == 1) /\
  (-1 <= x <= 1 -> js_max (-1) (js_min 1 x) == x).
Proof.
  unfold js_max, js_min.
  destruct (Qle_bool 1 x) eqn:E1;
  [ destruct (Qle_bool (-1) 1) eqn:E2
  | destruct (Qle_bool (-1) x) eqn:E2 ]; qbool;
  repeat split; intros; lra.
Qed.

Lemma clamp_mono (x y : Q) :
  x <= y -> js_max (-1) (js_min 1 x) <= js_max (-1) (js_min 1 y).
Proof.
  intros Hxy.
  destruct (clamp_spec x) as (Bx & Lx & Hx & Mx).
  destruct (clamp_spec y) as (By & Ly & Hy & My).
  destruct (Qlt_le_dec x (-1)); [specialize (Lx ltac:(lra)); lra|].
  destruct (Qlt_le_dec 1 y); [specialize (Hy ltac:(lra)); lra|].
  specialize (Mx ltac:(lra)). specialize (My ltac:(lra)). lra.
Qed.

(** The conversion of a clamped sample. *)
Lemma enc_core (s : Q) :
  -1 <= s <= 1 ->
  let t := toInt16 (if negb (Qle_bool 0 s) then s * 32768 else s * 32767) in
  (-32768 <= t <= 32767)%Z /\
  (0 <= s -> t = Qfloor (s * 32767)) /\
  (s < 0 -> t = Qceiling (s * 32768)).
Proof.
  intros Hs. cbv zeta.
  destruct (Qle_bool 0 s) eqn:E; simpl.
  - apply Qle_bool_iff in E.
    assert (Ht : trunc (s * 32767) = Qfloor (s * 32767)).
    { unfold trunc. replace (Qle_bool 0 (s * 32767)) with true; [reflexivity|].
      symmetry. apply Qle_bool_iff. lra. }
    assert (Hb : (-32768 <= Qfloor (s * 32767) <= 32767)%Z).
    { pose proof (Qfloor_resp_le 0 (s * 32767) ltac:(lra)) as L1.
      pose proof (Qfloor_resp_le (s * 32767) 32767 ltac:(lra)) as L2.
      change (Qfloor 0) with 0%Z in L1. change (Qfloor 32767) with 32767%Z in L2.
      lia. }
    rewrite toInt16_small; rewrite Ht; [|exact Hb].
    split; [exact Hb|]. split; [reflexivity | intros; exfalso; lra].
  - assert (E' : s < 0).
    { apply Qnot_le_lt. intros H. apply Qle_bool_iff in H. congruence. }
    assert (Ht : trunc (s * 32768) = Qceiling (s * 32768)).
    { unfold trunc. replace (Qle_bool 0 (s * 32768)) with false; [reflexivity|].
      symmetry. apply Bool.not_true_iff_false. intros H.
      apply Qle_bool_iff in H. lra. }
    assert (Hb : (-32768 <= Qceiling (s * 32768) <= 32767)%Z).
    { pose proof (Qceiling_resp_le (-32768) (s * 32768) ltac:(lra)) as L1.
      pose proof (Qceiling_resp_le (s * 32768) 0 ltac:(lra)) as L2.
      change (Qceiling (-32768)) with (-32768)%Z in L1.
      change (Qceiling 0) with 0%Z in L2.
      lia. }
    rewrite toInt16_small; rewrite Ht; [|exact Hb].
    split; [exact Hb|]. split; [intros; exfalso; lra | reflexivity].
Qed.

(** For every input, floatToPcm16 yields a value in [-32768, 32767].
    Inputs at or above 1 give 32767 and inputs at or below -1 give -32768. *)
Theorem encode_saturates (x : Q) :
  (-32768 <= floatToPcm16_sample x <= 32767)%Z /\
  (1 <= x -> floatToPcm16_sample x = 32767%Z) /\
  (x <= -1 -> floatToPcm16_sample x = (-32768)%Z).
Proof.
  unfold floatToPcm16_sample. cbv zeta.
  destruct (clamp_spec x) as (Hb & Hlo & Hhi & _).
  destruct (enc_core _ Hb) as (R & F & C).
  split; [exact R|]. split; intros H.
  - specialize (Hhi H). rewrite F by lra.
    rewrite (Qfloor_comp _ 32767) by lra. reflexivity.
  - specialize (Hlo H). rewrite C by lra.
    rewrite (Qceiling_comp _ (-32768)) by lra. reflexivity.
Qed.

(** floatToPcm16 is monotone: a larger input never encodes to a smaller
    16-bit value, including across the change of scale at 0. *)
Theorem encode_monotone (x y : Q) :
  x <= y -> (floatToPcm16_sample x <= floatToPcm16_sample y)%Z.
Proof.
  intros Hxy. unfold floatToPcm16_sample. cbv zeta.
  pose proof (clamp_mono x y Hxy) as Hm.
  set (cx := js_max (-1) (js_min 1 x)) in *.
  set (cy := js_max (-1) (js_min 1 y)) in *.
  destruct (clamp_spec x) as (Bx & _). destruct (clamp_spec y) as (By & _).
  fold cx in Bx. fold cy in By.
  destruct (enc_core cx Bx) as (_ & Fx & Cx).
  destruct (enc_core cy By) as (_ & Fy & Cy).
  destruct (Qlt_le_dec cx 0) as [Lx|Lx]; destruct (Qlt_le_dec cy 0) as [Ly|Ly].
  - rewrite (Cx Lx), (Cy Ly). apply Qceiling_resp_le. lra.
  - rewrite (Cx Lx), (Fy Ly).
    pose proof (Qceiling_resp_le (cx * 32768) 0 ltac:(lra)) as L1.
    pose proof (Qfloor_resp_le 0 (cy * 32767) ltac:(lra)) as L2.
    change (Qceiling 0) with 0%Z in L1. change (Qfloor 0) with 0%Z in L2.
    lia.
  - exfalso. lra.
  - rewrite (Fx Lx), (Fy Ly). apply Qfloor_resp_le. lra.
Qed.

Lemma getInt16_range (b0 b1 : Z) :
  byte b0 -> byte b1 -> int16 (getInt16_le b0 b1).
Proof.
  unfold byte, int16, getInt16_le. intros H0 H1.
  destruct (Z.leb_spec 32768 (b0 + 256 * b1)); lia.
Qed.

Lemma int16_scaled (v : Z) :
  int16 v -> -1 <= inject_Z v / 32768 <= 32767 # 32768.
Proof.
  unfold int16. intros [H1 H2].
  rewrite Zle_Qle in H1, H2.
  change (inject_Z (-32768)) with (-32768 # 1) in H1.
  change (inject_Z 32767) with (32767 # 1) in H2.
  unfold Qdiv. change (/ 32768) with (1 # 32768). split; lra.
Qed.

Lemma decode_aux (k : nat) : forall bytes,
  (length bytes <= k)%nat -> Forall byte bytes ->
  length (pcm16ToFloat bytes) = (length bytes / 2)%nat /\
  Forall (fun y => -1 <= y <= 32767 # 32768) (pcm16ToFloat bytes).
Proof.
  induction k as [|k IH]; intros [|b0 [|b1 rest]] Hl Hf.
  - split; [reflexivity | constructor].
  - simpl in Hl. lia.
  - simpl in Hl. lia.
  - split; [reflexivity | constructor].
  - split; [reflexivity | constructor].
  - inversion Hf as [|? ? Hb0 Hf1]; subst.
    inversion Hf1 as [|? ? Hb1 Hf2]; subst.
    cbn [length] in Hl.
    destruct (IH rest ltac:(lia) Hf2) as (Hlen & Hrng).
    cbn [pcm16ToFloat length]. split.
    + rewrite Hlen.
      replace (S (S (length rest))) with (1 * 2 + length rest)%nat by lia.
      rewrite Nat.div_add_l by lia. reflexivity.
    + constructor; [|exact Hrng].
      apply int16_scaled, getInt16_range; assumption.
Qed.

(** For bytes in 0..255, pcm16ToFloat returns floor(byteLength / 2)
    samples, so an odd trailing byte is ignored. Every sample lies in [-1,
    32767/32768]. *)
Theorem decode_range_length (bytes : list Z) :
  Forall byte bytes ->
  length (pcm16ToFloat bytes) = (length bytes / 2)%nat /\
  Forall (fun y => -1 <= y <= 32767 # 32768) (pcm16ToFloat bytes).
Proof. apply (decode_aux (length bytes)). lia. Qed.

Lemma land_byte (v : Z) : byte (Z.land v 255).
Proof.
  unfold byte. change 255%Z with (Z.ones 8).
  rewrite Z.land_ones by lia.
  pose proof (Z.mod_pos_bound v (2 ^ 8) ltac:(lia)).
  change (Z.ones 8) with 255%Z. change (2 ^ 8)%Z with 256%Z in *. lia.
Qed.

Lemma bytes_roundtrip_aux (vs : list Z) :
  Forall int16 vs ->
  pcm16ToFloat (pcm16_bytes vs) = map (fun v => inject_Z v / 32768) vs /\
  Forall byte (pcm16_bytes vs) /\
  length (pcm16_bytes vs) = (2 * length vs)%nat.
Proof.
  induction 1 as [|v vs Hv Hvs IH]; [repeat split; constructor|].
  destruct IH as (IH1 & IH2 & IH3).
  cbn [pcm16_bytes setInt16_le app pcm16ToFloat map length].
  rewrite (int16_le_roundtrip v Hv), IH1.
  split; [reflexivity|]. split.
  - apply Forall_cons; [apply land_byte|].
    apply Forall_cons; [apply land_byte | exact IH2].
  - rewrite IH3. lia.
Qed.

(** For 16-bit values, serialising with setInt16 little-endian gives bytes
    in 0..255, two per value. pcm16ToFloat decodes them back to exactly
    value / 32768 for each value. *)
Theorem int16_bytes_roundtrip (vs : list Z) :
  Forall int16 vs ->
  pcm16ToFloat (pcm16_bytes vs) = map (fun v => inject_Z v / 32768) vs /\
  Forall byte (pcm16_bytes vs) /\
  length (pcm16_bytes vs) = (2 * length vs)%nat.
Proof. apply bytes_roundtrip_aux. Qed.

Lemma reencode_sample (v : Z) :
  int16 v ->
  floatToPcm16_sample (inject_Z v / 32768) =
  (if (v <=? 0)%Z then v else v - 1)%Z.
Proof.
  intros Hv. pose proof (int16_scaled v Hv) as Hx.
  unfold floatToPcm16_sample. cbv zeta.
  destruct (clamp_spec (inject_Z v / 32768)) as (Hb & _ & _ & Hc).
  specialize (Hc ltac:(lra)).
  set (c := js_max (-1) (js_min 1 (inject_Z v / 32768))) in *.
  destruct (enc_core c Hb) as (_ & F & C).
  unfold Qdiv in Hc. change (/ 32768) with (1 # 32768) in Hc.
  unfold int16 in Hv.
  destruct (Z.leb_spec v 0) as [Hle|Hgt].
  - destruct (Z.eq_dec v 0) as [->|Hne].
    + rewrite F by (change (inject_Z 0) with 0 in Hc; lra).
      rewrite (Qfloor_comp _ 0) by (change (inject_Z 0) with 0 in Hc; lra).
      reflexivity.
    + assert (Hneg : inject_Z v < 0).
      { change 0 with (inject_Z 0). rewrite <- Zlt_Qlt. lia. }
      rewrite C by lra.
      rewrite (Qceiling_comp _ (inject_Z v)) by lra.
      apply Qceiling_Z.
  - assert (Hpos : 1 <= inject_Z v).
    { change 1 with (inject_Z 1). rewrite <- Zle_Qle. lia. }
    assert (Hmax : inject_Z v <= 32767).
    { change 32767 with (inject_Z 32767). rewrite <- Zle_Qle. lia. }
    rewrite F by lra.
    set (q := c * 32767).
    pose proof (Qfloor_le q) as Hf1. pose proof (Qlt_floor q) as Hf2.
    set (f := Qfloor q) in *.
    assert (Hq1 : q < inject_Z v) by (unfold q; lra).
    assert (Hq2 : inject_Z v - 1 <= q) by (unfold q; lra).
    assert (A : (f < v)%Z) by (rewrite Zlt_Qlt; lra).
    assert (B : (v < f + 2)%Z).
    { rewrite Zlt_Qlt, inject_Z_plus. rewrite inject_Z_plus in Hf2.
      change (inject_Z 1) with 1 in Hf2. change (inject_Z 2) with 2. lra. }
    lia.
Qed.

(** Re-encoding decoded PCM16 with floatToPcm16 returns each non-positive
    16-bit value unchanged but lowers each positive value by one, because
    decoding divides by 32768 while encoding multiplies non-negative
    samples by 32767. *)
Theorem reencode_decoded (vs : list Z) :
  Forall int16 vs ->
  floatToPcm16 (pcm16ToFloat (pcm16_bytes vs)) =
  map (fun v => if (v <=? 0)%Z then v else (v - 1)%Z) vs.
Proof.
  intros H. rewrite (proj1 (bytes_roundtrip_aux vs H)).
  unfold floatToPcm16. rewrite map_map.
  induction H as [|v vs Hv Hvs IH]; [reflexivity|].
  cbn [map]. rewrite reencode_sample by exact Hv. rewrite IH. reflexivity.
Qed.

Lemma encode_saturates_witness :
  1 <= 2 /\ floatToPcm16_sample 2 = 32767%Z.
Proof.
  split; [apply Qle_bool_iff; reflexivity|].
  apply (proj1 (proj2 (encode_saturates 2))). apply Qle_bool_iff; reflexivity.
Defined.

Lemma encode_monotone_witness :
  -1 # 3 <= 1 # 2 /\
  (floatToPcm16_sample (-1 # 3) <= floatToPcm16_sample (1 # 2))%Z.
Proof.
  split; [apply Qle_bool_iff; reflexivity|].
  apply encode_monotone. apply Qle_bool_iff; reflexivity.
Defined.

Lemma decode_range_length_witness :
  let bytes := [0; 128; 255; 127; 7]%Z in
  Forall byte bytes /\
  length (pcm16ToFloat bytes) = (length bytes / 2)%nat /\
  Forall (fun y => -1 <= y <= 32767 # 32768) (pcm16ToFloat bytes).
Proof.
  intros bytes.
  assert (H : Forall byte bytes)
    by (repeat apply Forall_cons; try apply Forall_nil; unfold byte; lia).
  split; [exact H|]. apply (decode_range_length bytes H).
Defined.

Lemma int16_bytes_roundtrip_witness :
  let vs := [-32768; -1; 0; 1; 32767]%Z in
  Forall int16 vs /\
  (pcm16ToFloat (pcm16_bytes vs) = map (fun v => inject_Z v / 32768) vs /\
   Forall byte (pcm16_bytes vs) /\
   length (pcm16_bytes vs) = (2 * length vs)%nat).
Proof.
  intros vs.
  assert (H : Forall int16 vs)
    by (repeat apply Forall_cons; try apply Forall_nil; unfold int16; lia).
  split; [exact H|]. apply (int16_bytes_roundtrip vs H).
Defined.

Lemma reencode_decoded_witness :
  let vs := [-32768; -1; 0; 1; 32767]%Z in
  Forall int16 vs /\
  floatToPcm16 (pcm16ToFloat (pcm16_bytes vs)) =
  map (fun v => if (v <=? 0)%Z then v else (v - 1)%Z) vs.
Proof.
  intros vs.
  assert (H : Forall int16 vs)
    by (repeat apply Forall_cons; try apply Forall_nil; unfold int16; lia).
  split; [exact H|]. apply (reencode_decoded vs H).
Defined.

End CodecExtra.

(* ------------------------------------------------------------------ *)
(** * Further properties of the WebSocket session *)

Module SessionExtra.
Import Session SessionFacts.

Lemma run_preserves (P : World -> Prop) :
  (forall w e, P w -> P (step w e)) -> forall evs w, P w -> P (run w evs).
Proof.
  intros Hs evs. unfold run.
  induction evs as [|e evs IH]; intros w Hw; simpl; auto.
Qed.

Lemma step_attempts (w : World) (e : Event) :
  (reconnectAttempts w <= 5)%nat -> (reconnectAttempts (step w e) <= 5)%nat.
Proof.
  intros H. destruct e; unfold step.
  - destruct (ready_eqb _ _); simpl; lia.
  - destruct (pendingOpen w); simpl; lia.
  - destruct (_ && _); simpl; lia.
  - destruct (ready_eqb _ _); [lia|].
    destruct (isEngaged w && (reconnectAttempts w <? maxReconnectAttempts)%nat)
      eqn:E.
    + apply andb_prop in E as [_ E]. apply Nat.ltb_lt in E.
      unfold maxReconnectAttempts in E. simpl. lia.
    + destruct (_ <=? _)%nat; simpl; lia.
  - destruct (reconnectTimer w); simpl; lia.
Qed.

(** Over every sequence of socket open, microphone-ready, audio-frame,
    close and reconnect-timer events from the start of an engagement, the
    reconnect-attempt counter never exceeds maxReconnectAttempts (5). *)
Theorem attempts_bounded (kb region : String.string) (evs : list Event) :
  (reconnectAttempts (run (init kb region) evs) <= 5)%nat.
Proof.
  apply run_preserves; [apply step_attempts|]. simpl. lia.
Qed.

(** Each modelled session event (socket open, microphone ready, audio
    frame, close, reconnect timer) sends either nothing or exactly one
    message. It sends only while the current socket is open, on that
    socket, and does not change which socket is current. *)
Theorem send_only_when_open (w : World) (e : Event) :
  sent (step w e) = sent w \/
  (ready w = Open /\ sock (step w e) = sock w /\
   exists m, sent (step w e) = sent w ++ [(sock w, m)]).
Proof.
  destruct e; unfold step.
  - destruct (ready_eqb _ _); left; reflexivity.
  - destruct (pendingOpen w); [left; reflexivity|].
    destruct (ready_eqb (ready w) Open) eqn:E; [right | left; reflexivity].
    apply ready_eqb_true in E. split; [exact E|]. split; [reflexivity|].
    eexists; reflexivity.
  - destruct (_ && _) eqn:E; [right | left; reflexivity].
    apply andb_prop in E as [_ E]. apply ready_eqb_true in E.
    split; [exact E|]. split; [reflexivity|]. eexists; reflexivity.
  - destruct (ready_eqb _ _); [left; reflexivity|].
    destruct (_ && _); [|destruct (_ <=? _)%nat]; left; reflexivity.
  - destruct (reconnectTimer w); left; reflexivity.
Qed.

(** A pending reconnect only exists after a close, and a disengaged
    session has no socket and no pending reconnect. *)
Definition quiet_inv (w : World) : Prop :=
  (reconnectTimer w <> None -> ready w = Closed) /\
  (engagedState w = false ->
   ready w = Closed /\ reconnectTimer w = None /\
   (5 <= reconnectAttempts w)%nat).

Lemma step_quiet_inv (w : World) (e : Event) :
  quiet_inv w -> quiet_inv (step w e).
Proof.
  unfold quiet_inv. intros [Ht He]. destruct e; unfold step.
  - destruct (ready_eqb (ready w) Connecting) eqn:E; [|auto].
    apply ready_eqb_true in E. simpl. split.
    + intros H. specialize (Ht H). congruence.
    + intros H. destruct (He H) as [Hc _]. congruence.
  - destruct (pendingOpen w); [auto|]. simpl. auto.
  - destruct (_ && _); [simpl|]; auto.
  - destruct (ready_eqb (ready w) Closed) eqn:Ec; [auto|].
    assert (Hnc : ready w <> Closed)
      by (intros H; rewrite H in Ec; discriminate).
    destruct (isEngaged w && (reconnectAttempts w <? maxReconnectAttempts)%nat).
    + simpl. split; [auto|]. intros H. destruct (He H) as [Hc _]. contradiction.
    + destruct (maxReconnectAttempts <=? reconnectAttempts w)%nat eqn:Em.
      * apply Nat.leb_le in Em. unfold maxReconnectAttempts in Em. simpl.
        split; [auto|]. intros _. split; [reflexivity|]. split; [|exact Em].
        destruct (reconnectTimer w) eqn:Et; [|reflexivity].
        exfalso. apply Hnc, Ht. discriminate.
      * simpl. split; [auto|]. intros H. destruct (He H) as [Hc _].
        contradiction.
  - destruct (reconnectTimer w) eqn:Et; 
      [|split; [intros H; contradiction|];
        intros H; destruct (He H) as (A & _ & C); auto].
    simpl. split.
    + intros H. contradiction.
    + intros H. destruct (He H) as (_ & Hn & _). discriminate.
Qed.

Lemma step_disengaged (w : World) (e : Event) :
  quiet_inv w -> engagedState w = false ->
  sent (step w e) = sent w /\ connects (step w e) = connects w /\
  scheduled (step w e) = scheduled w /\ engagedState (step w e) = false.
Proof.
  intros [_ He] Hd. destruct (He Hd) as (Hc & Hn & _).
  destruct e; unfold step; rewrite ?Hc, ?Hn; simpl; rewrite ?andb_false_r.
  all: try (destruct (pendingOpen w); simpl; rewrite ?Hc).
  all: repeat split; auto.
Qed.

(** Once the session is disengaged after the maximum number of reconnect
    attempts, no further modelled event (socket open, microphone ready,
    audio frame, close, reconnect timer) sends a message, creates a
    connection or schedules a reconnect, and the session stays disengaged. *)
Theorem disengaged_is_final (kb region : String.string)
    (evs1 evs2 : list Event) :
  let w := run (init kb region) evs1 in
  engagedState w = false ->
  let w' := run w evs2 in
  sent w' = sent w /\ connects w' = connects w /\
  scheduled w' = scheduled w /\ engagedState w' = false.
Proof.
  intros w Hd.
  assert (Hi : quiet_inv w).
  { apply run_preserves; [apply step_quiet_inv|].
    unfold quiet_inv; simpl. split; [congruence | discriminate]. }
  clearbody w. unfold run. revert w Hi Hd.
  induction evs2 as [|e evs IH]; intros w Hi Hd; simpl; [auto|].
  destruct (step_disengaged w e Hi Hd) as (H1 & H2 & H3 & H4).
  destruct (IH (step w e) (step_quiet_inv w e Hi) H4) as (G1 & G2 & G3 & G4).
  rewrite G1, G2, G3, H1, H2, H3. auto.
Qed.

Lemma disengaged_is_final_witness :
  let kb := String.EmptyString in
  let evs1 := concat (repeat [EClose; EReconnect] 5) ++ [EClose] in
  let evs2 := [EOpen; EMicReady true; EAudio 0; EClose; EReconnect] in
  engagedState (run (init kb kb) evs1) = false /\
  (let w' := run (run (init kb kb) evs1) evs2 in
   sent w' = sent (run (init kb kb) evs1) /\
   connects w' = connects (run (init kb kb) evs1) /\
   scheduled w' = scheduled (run (init kb kb) evs1) /\
   engagedState w' = false).
Proof.
  intros kb evs1 evs2.
  assert (H : engagedState (run (init kb kb) evs1) = false)
    by (vm_compute; reflexivity).
  split; [exact H|]. apply (disengaged_is_final kb kb evs1 evs2 H).
Defined.

End SessionExtra.

(* ------------------------------------------------------------------ *)
(** * The message router of [wsRef.current.onmessage] *)

Module Router.
Import AudioProcessor.









End Router.

Module RouterFacts.
Import AudioProcessor AudioProcessorFacts Router.



End RouterFacts.

(* ------------------------------------------------------------------ *)
(** * The module loading of [initAudioWorklet] *)

Module WorkletLoader.

Definition maxRetries : nat := 3.

(** The retry loop of [initAudioWorklet]:
    [while (retries < maxRetries) { try { await addModule(...); break; }
     catch { retries++; if (retries >= maxRetries) throw error;
             await sleep(500); } }].
    [ok i] is the outcome of the [i]-th [addModule] call.  Returns whether
    the loop exits without throwing, the number of [addModule] calls and
    the milliseconds waited; [fuel] bounds the iterations. *)
Fixpoint retry_loop (fuel retries : nat) (ok : nat -> bool) : bool * nat * Z :=
  match fuel with
  | O => (true, O, 0)
  | S f =>
      if (retries <? maxRetries)%nat then
        if ok retries then (true, 1%nat, 0)
        else
          let retries' := S retries in
          if (maxRetries <=? retries')%nat then (false, 1%nat, 0)
          else
            let '(r, c, w) := retry_loop f retries' ok in
            (r, S c, 500 + w)
      else (true, O, 0)
  end.

(** [retries] starts at 0; each iteration increments it, so
    [maxRetries] iterations suffice. *)
Definition loadModule (ok : nat -> bool) : bool * nat * Z :=
  retry_loop maxRetries 0 ok.

End WorkletLoader.

Module WorkletLoaderFacts.
Import WorkletLoader.

(** initAudioWorklet calls addModule between 1 and 3 times, stopping at
    the first success, and waits 500 ms after each failed call except the
    last. The loop throws only after three failures. *)
Theorem load_module_retries (ok : nat -> bool) :
  let '(loaded, calls, waited) := loadModule ok in
  (1 <= calls <= 3)%nat /\ waited = 500 * (Z.of_nat calls - 1) /\
  (forall k, (k < calls - 1)%nat -> ok k = false) /\
  (loaded = true -> ok (calls - 1)%nat = true) /\
  (loaded = false -> calls = 3%nat /\ forall k, (k < 3)%nat -> ok k = false).
Proof.
  unfold loadModule, retry_loop, maxRetries. cbn -[Z.mul].
  destruct (ok 0%nat) eqn:E0; [|destruct (ok 1%nat) eqn:E1;
    [|destruct (ok 2%nat) eqn:E2]]; cbn -[Z.mul];
  (split; [lia|]); (split; [reflexivity|]);
  (split; [intros k Hk; destruct k as [|[|[|k]]]; cbn in Hk; try lia;
           assumption|]);
  (split; [intros H; congruence|]); intros H; try discriminate H.
  split; [reflexivity|].
  intros k Hk; destruct k as [|[|[|k]]]; try lia; assumption.
Qed.

End WorkletLoaderFacts.
